(** * Lexical context classifier and safe-edit validator

    A shallow embedding of [contextAnalyzer.js] (classes [ContextAnalyzer],
    [CodeValidator], [FixerBase]), of the exported helpers of
    [globalFunction.jsx] and of the registry of [fixerRegistry.js], with
    the properties stated about them.

    Conventions.
    - A JavaScript string is the list of its UTF-16 code units ([list N]);
      [js "..."] writes an ASCII literal.
    - A JavaScript integer is a [Z]; [code[i]] is [code.[i]], which is
      [None] ([undefined]) outside the string.
    - A text that the program assembles for a message is a [string].
    - A [throw] is the [Throw] outcome of type [Completion].
    - The instance field [contextCache] is passed explicitly. *)

From Stdlib Require Import ZArith List Ascii String Bool Lia.
From stdpp Require Import base option list gmap strings pretty.
From Equations Require Import Equations.
Import ListNotations.

Local Open Scope Z_scope.

(** ** JavaScript strings *)

Abbreviation jsString := (list N).

Definition chr (a : ascii) : N := N_of_ascii a.

Definition js (s : string) : jsString := map chr (list_ascii_of_string s).

(** [code.length] *)
Definition len (code : jsString) : Z := Z.of_nat (length code).

(** [l[i]] on a string or an array: [undefined] for an index outside it. *)
Definition item {A} (l : list A) (i : Z) : option A :=
  if i <? 0 then None else l !! Z.to_nat i.

Notation "l .[ i ]" := (item l i) (at level 1, left associativity,
  format "l .[ i ]").

(** [c === 'a'] for a one-character literal. *)
Definition charIs (c : option N) (a : ascii) : bool :=
  match c with
  | Some u => N.eqb u (chr a)
  | None => false
  end.

Definition inRange (lo hi u : N) : bool := (N.leb lo u && N.leb u hi)%bool.

(** [/\s/.test(c)].  The class [\s] of ECMAScript: white space and line
    terminators.  [undefined] is converted to the text "undefined", which
    holds none of them. *)
Definition isWhitespace (c : option N) : bool :=
  match c with
  | Some u =>
      (inRange 9 13 u || N.eqb u 32 || N.eqb u 160 || N.eqb u 5760
       || inRange 8192 8202 u || N.eqb u 8232 || N.eqb u 8233
       || N.eqb u 8239 || N.eqb u 8287 || N.eqb u 12288 || N.eqb u 65279)%bool
  | None => false
  end.

(** [/[a-zA-Z_$]/.test(c)].  [undefined] is converted to the text
    "undefined", which holds a letter. *)
Definition isWordChar (c : option N) : bool :=
  match c with
  | Some u =>
      (inRange (chr "a") (chr "z") u || inRange (chr "A") (chr "Z") u
       || N.eqb u (chr "_") || N.eqb u (chr "$"))%bool
  | None => true
  end.

(** Relative index of [Array.prototype.slice] / [String.prototype.slice]. *)
Definition relIndex (n k : Z) : Z :=
  if k <? 0 then Z.max (n + k) 0 else Z.min k n.

(** [code.slice(a, b)] *)
Definition slice (code : jsString) (a b : Z) : jsString :=
  let from := relIndex (len code) a in
  let to := relIndex (len code) b in
  firstn (Z.to_nat (to - from)) (skipn (Z.to_nat from) code).

Definition clamp (n k : Z) : Z := Z.min (Z.max k 0) n.

(** [code.substring(a, b)]: both ends clamped to the string, swapped when
    out of order. *)
Definition substring (code : jsString) (a b : Z) : jsString :=
  let a' := clamp (len code) a in
  let b' := clamp (len code) b in
  let lo := Z.min a' b' in
  let hi := Z.max a' b' in
  firstn (Z.to_nat (hi - lo)) (skipn (Z.to_nat lo) code).

(** [code.substring(a)] *)
Definition substringFrom (code : jsString) (a : Z) : jsString :=
  substring code a (len code).

(** [code.split('\n')] *)
Fixpoint split_newline (code : jsString) : list jsString :=
  match code with
  | [] => [[]]
  | u :: rest =>
      if N.eqb u (chr "010") then [] :: split_newline rest
      else match split_newline rest with
           | l :: ls => (u :: l) :: ls
           | [] => [[u]]
           end
  end.

(** ** Outcomes of a call *)

Inductive JsError : Type :=
| TypeError (message : string)
| SyntaxError (message : string)
| Error (message : string).

Definition errorMessage (e : JsError) : string :=
  match e with
  | TypeError m | SyntaxError m | Error m => m
  end.

Definition errorName (e : JsError) : string :=
  match e with
  | TypeError _ => "TypeError"
  | SyntaxError _ => "SyntaxError"
  | Error _ => "Error"
  end.

Inductive Completion (A : Type) : Type :=
| Normal (a : A)
| Throw (e : JsError).
Arguments Normal {A} a.
Arguments Throw {A} e.

Definition inspect {A} (a : A) : {b : A | a = b} := exist _ a eq_refl.

(** ** ContextAnalyzer *)

Inductive CommentType : Type := single | multi.

Record LexicalContext : Type := mkContext {
  inString : bool;
  inComment : bool;
  inRegex : bool;
  inTemplate : bool;
  inTemplateExpression : bool;
  stringChar : option ascii;
  commentType : option CommentType
}.

Module Scan.

(** The local variables of [analyzeAbsolutePosition]. *)
Record locals : Type := mkLocals {
  i : Z;
  inSingleQuote : bool;
  inDoubleQuote : bool;
  inTemplate : bool;
  inSingleComment : bool;
  inMultiComment : bool;
  inRegex : bool;
  templateDepth : Z;
  regexContext : bool
}.

Definition initial : locals :=
  mkLocals 0 false false false false false false 0 false.

Definition advance (k : Z) (s : locals) : locals :=
  mkLocals (i s + k) (inSingleQuote s) (inDoubleQuote s) (inTemplate s)
    (inSingleComment s) (inMultiComment s) (inRegex s) (templateDepth s)
    (regexContext s).

Definition set_inSingleQuote (b : bool) (s : locals) : locals :=
  mkLocals (i s) b (inDoubleQuote s) (inTemplate s) (inSingleComment s)
    (inMultiComment s) (inRegex s) (templateDepth s) (regexContext s).

Definition set_inDoubleQuote (b : bool) (s : locals) : locals :=
  mkLocals (i s) (inSingleQuote s) b (inTemplate s) (inSingleComment s)
    (inMultiComment s) (inRegex s) (templateDepth s) (regexContext s).

Definition set_inTemplate (b : bool) (s : locals) : locals :=
  mkLocals (i s) (inSingleQuote s) (inDoubleQuote s) b (inSingleComment s)
    (inMultiComment s) (inRegex s) (templateDepth s) (regexContext s).

Definition set_inSingleComment (b : bool) (s : locals) : locals :=
  mkLocals (i s) (inSingleQuote s) (inDoubleQuote s) (inTemplate s) b
    (inMultiComment s) (inRegex s) (templateDepth s) (regexContext s).

Definition set_inMultiComment (b : bool) (s : locals) : locals :=
  mkLocals (i s) (inSingleQuote s) (inDoubleQuote s) (inTemplate s)
    (inSingleComment s) b (inRegex s) (templateDepth s) (regexContext s).

(** [inRegex = b; regexContext = b;] *)
Definition set_inRegex (b : bool) (s : locals) : locals :=
  mkLocals (i s) (inSingleQuote s) (inDoubleQuote s) (inTemplate s)
    (inSingleComment s) (inMultiComment s) b (templateDepth s) b.

Definition set_templateDepth (d : Z) (s : locals) : locals :=
  mkLocals (i s) (inSingleQuote s) (inDoubleQuote s) (inTemplate s)
    (inSingleComment s) (inMultiComment s) (inRegex s) d (regexContext s).

End Scan.

(** [regexPreceders] of [couldBeRegexStart]. *)
Definition regexPreceders : list N :=
  js "([{,;:!&|?+-*/%=<>^~".

(** [keywords] of [couldBeRegexStart]. *)
Definition keywords : list jsString :=
  map js ["return"; "throw"; "case"; "in"; "of"; "delete"; "void";
          "typeof"; "new"; "instanceof"]%string.

(** [array.includes(x)] *)
Definition includes {A} `{EqDecision A} (l : list A) (x : A) : bool :=
  existsb (fun y => bool_decide (y = x)) l.

(** [while (i >= 0 && /\s/.test(code[i])) i--;] the value of [i] at exit. *)
Equations? skipWhitespaceBack (code : jsString) (i : Z) : Z
  by wf (Z.to_nat (i + 1)) lt :=
  skipWhitespaceBack code i
    with inspect ((0 <=? i) && isWhitespace code.[i])%bool := {
    | exist _ true _ => skipWhitespaceBack code (i - 1);
    | exist _ false _ => i }.
Proof. apply andb_prop in e as [?%Z.leb_le _]. lia. Qed.

(** [while (wordStart >= 0 && /[a-zA-Z_$]/.test(code[wordStart])) wordStart--;] *)
Equations? wordStartBack (code : jsString) (wordStart : Z) : Z
  by wf (Z.to_nat (wordStart + 1)) lt :=
  wordStartBack code wordStart
    with inspect ((0 <=? wordStart) && isWordChar code.[wordStart])%bool := {
    | exist _ true _ => wordStartBack code (wordStart - 1);
    | exist _ false _ => wordStart }.
Proof. apply andb_prop in e as [?%Z.leb_le _]. lia. Qed.

Definition couldBeRegexStart (code : jsString) (position : Z) : bool :=
  let i := skipWhitespaceBack code (position - 1) in
  if i <? 0 then true
  else
    let prevChar := code.[i] in
    if match prevChar with
       | Some u => includes regexPreceders u
       | None => false
       end
    then true
    else
      let wordStart := wordStartBack code i in
      let word := slice code (wordStart + 1) (i + 1) in
      includes keywords word.

(** The loop of [isEscaped]: the number of backslashes that end at [i]. *)
Equations? countBackslashes (code : jsString) (i : Z) (escapeCount : Z) : Z
  by wf (Z.to_nat (i + 1)) lt :=
  countBackslashes code i escapeCount
    with inspect ((0 <=? i) && charIs code.[i] "\")%bool := {
    | exist _ true _ => countBackslashes code (i - 1) (escapeCount + 1);
    | exist _ false _ => escapeCount }.
Proof. apply andb_prop in e as [?%Z.leb_le _]. lia. Qed.

Definition isEscaped (code : jsString) (position : Z) : bool :=
  countBackslashes code (position - 1) 0 mod 2 =? 1.

Module Scan_loop.
Import Scan.

(** The loop test [i < position && i < code.length]. *)
Definition running (code : jsString) (position : Z) (s : locals) : bool :=
  ((i s <? position) && (i s <? len code))%bool.

(** The statements of the loop body that do not leave the pass, one
    definition for each, named after the comment that heads it in the
    source. *)

(** End single-line comment at newline *)
Definition endSingleComment (char : option N) (s : locals) : locals :=
  if (inSingleComment s && charIs char "010")%bool
  then set_inSingleComment false s else s.

(** Handle regular expressions *)
Definition handleRegex (code : jsString) (char : option N) (s : locals)
  : locals :=
  if (negb (inSingleQuote s) && negb (inDoubleQuote s) && negb (inTemplate s)
      && charIs char "/")%bool
  then if couldBeRegexStart code (i s) then set_inRegex true s else s
  else s.

(** End regex *)
Definition endRegex (code : jsString) (char : option N) (s : locals)
  : locals :=
  if (inRegex s && charIs char "/" && negb (isEscaped code (i s)))%bool
  then set_inRegex false s else s.

(** Single quotes *)
Definition singleQuotes (char : option N) (s : locals) : locals :=
  if (charIs char "'" && negb (inDoubleQuote s) && negb (inTemplate s))%bool
  then set_inSingleQuote (negb (inSingleQuote s)) s else s.

(** Double quotes *)
Definition doubleQuotes (char : option N) (s : locals) : locals :=
  if (charIs char "034" && negb (inSingleQuote s) && negb (inTemplate s))%bool
  then set_inDoubleQuote (negb (inDoubleQuote s)) s else s.

(** Template literals *)
Definition templateLiterals (char : option N) (s : locals) : locals :=
  if (charIs char "`" && negb (inSingleQuote s) && negb (inDoubleQuote s))%bool
  then
    if inTemplate s
    then
      let s := set_templateDepth (templateDepth s - 1) s in
      if templateDepth s =? 0 then set_inTemplate false s else s
    else set_templateDepth 1 (set_inTemplate true s)
  else s.

(** [if (inTemplate && char === '}' && templateDepth > 1) templateDepth--;] *)
Definition closeExpression (char : option N) (s : locals) : locals :=
  if (inTemplate s && charIs char "}" && (1 <? templateDepth s))%bool
  then set_templateDepth (templateDepth s - 1) s else s.

(** The part of the body after the comment handling: regular expressions,
    strings and templates. *)
Definition codeBody (code : jsString) (char nextChar : option N) (s : locals)
  : locals :=
  let s := handleRegex code char s in
  let s := endRegex code char s in
  (* Handle strings and templates (skip if in regex or comment) *)
  if inRegex s then advance 1 s
  else
    let s := singleQuotes char s in
    let s := doubleQuotes char s in
    let s := templateLiterals char s in
    (* Template expressions *)
    if (inTemplate s && charIs char "$" && charIs nextChar "{")%bool
    then advance 2 (set_templateDepth (templateDepth s + 1) s)
    else advance 1 (closeExpression char s).

(** One pass through the body of the [while] loop, up to its [continue] or
    its final [i++]. *)
Definition body (code : jsString) (s : locals) : locals :=
  let char := code.[i s] in
  let nextChar := code.[i s + 1] in
  (* Handle escape sequences *)
  if (charIs char "\"
      && (inSingleQuote s || inDoubleQuote s || inTemplate s || inRegex s))%bool
  then advance 2 s
  else
  (* Handle single-line comments *)
  if (negb (inSingleQuote s) && negb (inDoubleQuote s) && negb (inTemplate s)
      && negb (inMultiComment s) && negb (inRegex s)
      && (charIs char "/" && charIs nextChar "/"))%bool
  then advance 2 (set_inSingleComment true s)
  else
  let s := endSingleComment char s in
  (* Handle multi-line comments *)
  if (negb (inSingleQuote s) && negb (inDoubleQuote s) && negb (inTemplate s)
      && negb (inSingleComment s) && negb (inRegex s)
      && (charIs char "/" && charIs nextChar "*"))%bool
  then advance 2 (set_inMultiComment true s)
  else
  (* End multi-line comment *)
  if (inMultiComment s && charIs char "*" && charIs nextChar "/")%bool
  then advance 2 (set_inMultiComment false s)
  else
  (* Skip if in any comment *)
  if (inSingleComment s || inMultiComment s)%bool
  then advance 1 s
  else codeBody code char nextChar s.

Ltac case_if :=
  match goal with
  | |- context [if ?b then _ else _] => destruct b eqn:?
  end.

Lemma i_endSingleComment char s : i (endSingleComment char s) = i s.
Proof. unfold endSingleComment. case_if; reflexivity. Qed.

Lemma i_handleRegex code char s : i (handleRegex code char s) = i s.
Proof. unfold handleRegex. repeat case_if; reflexivity. Qed.

Lemma i_endRegex code char s : i (endRegex code char s) = i s.
Proof. unfold endRegex. case_if; reflexivity. Qed.

Lemma i_singleQuotes char s : i (singleQuotes char s) = i s.
Proof. unfold singleQuotes. case_if; reflexivity. Qed.

Lemma i_doubleQuotes char s : i (doubleQuotes char s) = i s.
Proof. unfold doubleQuotes. case_if; reflexivity. Qed.

Lemma i_templateLiterals char s : i (templateLiterals char s) = i s.
Proof. unfold templateLiterals. repeat case_if; reflexivity. Qed.

Lemma i_closeExpression char s : i (closeExpression char s) = i s.
Proof. unfold closeExpression. case_if; reflexivity. Qed.

Lemma i_codeBody code char nextChar s :
  i (codeBody code char nextChar s) = i s + 1
  \/ i (codeBody code char nextChar s) = i s + 2.
Proof.
  unfold codeBody. repeat case_if; cbn [advance set_templateDepth i];
    rewrite ?i_closeExpression, ?i_templateLiterals, ?i_doubleQuotes,
      ?i_singleQuotes, ?i_endRegex, ?i_handleRegex; auto.
Qed.

(** Every pass moves [i] forward by one or two. *)
Lemma body_advances (code : jsString) (s : locals) :
  i (body code s) = i s + 1 \/ i (body code s) = i s + 2.
Proof.
  unfold body. repeat case_if; cbn [advance set_inSingleComment
    set_inMultiComment i]; rewrite ?i_endSingleComment; auto.
  pose proof (i_codeBody code code.[i s] (code.[i s + 1])
                (endSingleComment code.[i s] s)) as H.
  rewrite i_endSingleComment in H. exact H.
Qed.

(** [while (i < position && i < code.length) { ... }] *)
Equations? loop (code : jsString) (position : Z) (s : locals) : locals
  by wf (Z.to_nat (len code - i s)) lt :=
  loop code position s with inspect (running code position s) := {
    | exist _ true _ => loop code position (body code s);
    | exist _ false _ => s }.
Proof.
  unfold running in e. apply andb_prop in e as [_ ?%Z.ltb_lt].
  destruct (body_advances code s); lia.
Qed.

End Scan_loop.

Definition analyzeAbsolutePosition (code : jsString) (position : Z)
  : LexicalContext :=
  let s := Scan_loop.loop code position Scan.initial in
  let inString := (Scan.inSingleQuote s || Scan.inDoubleQuote s)%bool in
  let inComment := (Scan.inSingleComment s || Scan.inMultiComment s)%bool in
  let inTemplate := Scan.inTemplate s in
  let stringChar :=
    if inString then Some (if Scan.inSingleQuote s then "'" else "034")%char
    else None in
  let commentType :=
    if inComment then Some (if Scan.inSingleComment s then single else multi)
    else None in
  let stringChar := if inTemplate then Some "`"%char else stringChar in
  {| inString := inString;
     inComment := inComment;
     inRegex := Scan.inRegex s;
     inTemplate := inTemplate;
     inTemplateExpression := (inTemplate && (1 <? Scan.templateDepth s))%bool;
     stringChar := stringChar;
     commentType := commentType |}.

Definition isInString (code : jsString) (position : Z) : bool :=
  inString (analyzeAbsolutePosition code position).

Definition isInComment (code : jsString) (position : Z) : bool :=
  inComment (analyzeAbsolutePosition code position).

Definition isInRegex (code : jsString) (position : Z) : bool :=
  inRegex (analyzeAbsolutePosition code position).

Definition isInTemplateString (code : jsString) (position : Z) : bool :=
  inTemplate (analyzeAbsolutePosition code position).


(** The message of the [TypeError] that reading [lines[i].length] raises
    when [lines[i]] is [undefined] (the text is the engine's). *)
Definition undefinedLengthMessage : string :=
  "Cannot read properties of undefined (reading 'length')".

(** [for (let i = 0; i < line - 1; i++) position += lines[i].length + 1;] *)
Equations? getAbsolutePosition_loop (lines : list jsString) (line : Z)
  (i : Z) (position : Z) : Completion Z
  by wf (Z.to_nat (line - 1 - i)) lt :=
  getAbsolutePosition_loop lines line i position
    with inspect (i <? line - 1) := {
    | exist _ false _ => Normal position;
    | exist _ true _ with lines.[i] := {
      | Some l => getAbsolutePosition_loop lines line (i + 1)
                    (position + (len l + 1));
      | None => Throw (TypeError undefinedLengthMessage) } }.
Proof. apply Z.ltb_lt in e. lia. Qed.

Definition getAbsolutePosition (code : jsString) (line column : Z)
  : Completion Z :=
  let lines := split_newline code in
  match getAbsolutePosition_loop lines line 0 0 with
  | Normal position => Normal (position + column - 1)
  | Throw e => Throw e
  end.

(** The key [`${code.length}-${absolutePos}`] of the cache. *)
Definition cacheKey (code : jsString) (absolutePos : Z) : string :=
  pretty (len code) +:+ "-" +:+ pretty absolutePos.

(** [analyzePosition]: the result and the cache it leaves. *)
Definition analyzePosition (contextCache : gmap string LexicalContext)
  (code : jsString) (line column : Z)
  : Completion (LexicalContext * gmap string LexicalContext) :=
  match getAbsolutePosition code line column with
  | Throw e => Throw e
  | Normal absolutePos =>
      let cacheKey := cacheKey code absolutePos in
      match contextCache !! cacheKey with
      | Some context => Normal (context, contextCache)
      | None =>
          let context := analyzeAbsolutePosition code absolutePos in
          Normal (context, <[cacheKey := context]> contextCache)
      end
  end.

Definition clearCache (contextCache : gmap string LexicalContext)
  : gmap string LexicalContext := ∅.

(** [`${x}`] for a property that may be [undefined]. *)
Definition interpolate {A} (show : A -> string) (x : option A) : string :=
  match x with
  | Some a => show a
  | None => "undefined"
  end.

Definition showChar (a : ascii) : string := String a EmptyString.

Definition showCommentType (t : CommentType) : string :=
  match t with
  | single => "single"
  | multi => "multi"
  end.

Module SafeZone.
Record t : Type := mk {
  isSafe : bool;
  reason : string;
  context : LexicalContext
}.
End SafeZone.

(** The verdict of [findSafeFixZone] on the context of the position. *)
Definition safeFixZoneOf (context : LexicalContext) : SafeZone.t :=
  if inString context then
    SafeZone.mk false
      ("Position is inside a string literal ("
         +:+ interpolate showChar (stringChar context) +:+ ")")
      context
  else if inComment context then
    SafeZone.mk false
      ("Position is inside a "
         +:+ interpolate showCommentType (commentType context) +:+ " comment")
      context
  else if inRegex context then
    SafeZone.mk false "Position is inside a regular expression literal" context
  else if (inTemplate context && negb (inTemplateExpression context))%bool then
    SafeZone.mk false "Position is inside template literal text" context
  else
    SafeZone.mk true "Position is safe for modifications" context.

(** [findSafeFixZone(code, error)] with [error = { line, column }]. *)
Definition findSafeFixZone (contextCache : gmap string LexicalContext)
  (code : jsString) (line column : Z)
  : Completion (SafeZone.t * gmap string LexicalContext) :=
  match analyzePosition contextCache code line column with
  | Throw e => Throw e
  | Normal (context, contextCache) =>
      Normal (safeFixZoneOf context, contextCache)
  end.

(** ** CodeValidator *)

Inductive Details : Type :=
| SyntaxIssues (issues : list string)
| SyntaxPassed
| SyntaxFailure (syntaxError errorType : string).

Module ValidationResult.
Record t : Type := mk {
  isValid : bool;
  error : option string;
  warnings : list string;
  details : Details
}.
End ValidationResult.

Record FixRecord : Type := mkFixRecord {
  ruleId : jsString;
  line : Z;
  column : Z;
  originalText : jsString;
  fixedText : jsString;
  timestamp : Z
}.

(** The fields of a [CodeValidator] instance. *)
Record CodeValidator : Type := mkCodeValidator {
  fixHistory : list FixRecord;
  codeSnapshots : gmap string jsString
}.

(** [new CodeValidator()] *)
Definition newCodeValidator : CodeValidator := mkCodeValidator [] ∅.

(** [recordFix]; [now] is the value of [new Date()] at the call. *)
Definition recordFix (now : Z) (ruleId : jsString) (line column : Z)
  (originalText fixedText : jsString) (this : CodeValidator) : CodeValidator :=
  let fixRecord :=
    mkFixRecord ruleId line column originalText fixedText now in
  (* this.fixHistory.push(fixRecord) *)
  let history := fixHistory this ++ [fixRecord] in
  (* Keep history size manageable *)
  let history :=
    if 100 <? Z.of_nat (length history) then tail history (* shift() *)
    else history in
  mkCodeValidator history (codeSnapshots this).

(** [brackets[char]] *)
Definition brackets (char : N) : option N :=
  if N.eqb char (chr "(") then Some (chr ")")
  else if N.eqb char (chr "[") then Some (chr "]")
  else if N.eqb char (chr "{") then Some (chr "}")
  else None.

(** [Object.values(brackets)] *)
Definition bracketValues : list N := js ")]}".

Module StackItem.
Record t : Type := mk { char : N; pos : Z }.
End StackItem.

Definition unmatchedMessage (char : N) (i : Z) : string :=
  "Unmatched bracket '" +:+ showChar (ascii_of_N char)
    +:+ "' at position " +:+ pretty i.

Definition unclosedMessage (item : StackItem.t) : string :=
  "Unclosed bracket '" +:+ showChar (ascii_of_N (StackItem.char item))
    +:+ "' at position " +:+ pretty (StackItem.pos item).

(** The [for] loop over the characters from index [i] on; [stack] is the
    array with its top at the end, as [push] and [pop] have it. *)
Fixpoint bracketLoop (rest : jsString) (i : Z) (stack : list StackItem.t)
  (issues : list string) : list StackItem.t * list string :=
  match rest with
  | [] => (stack, issues)
  | char :: rest =>
      match brackets char with
      | Some _ => bracketLoop rest (i + 1) (stack ++ [StackItem.mk char i]) issues
      | None =>
          if includes bracketValues char then
            (* const last = stack.pop() *)
            let last := last stack in
            let stack := removelast stack in
            if match last with
               | None => true
               | Some item =>
                   negb (bool_decide
                           (brackets (StackItem.char item) = Some char))
               end
            then bracketLoop rest (i + 1) stack
                   (issues ++ [unmatchedMessage char i])
            else bracketLoop rest (i + 1) stack issues
          else bracketLoop rest (i + 1) stack issues
      end
  end.

(** The warnings of the bracket check: the unmatched closers in the order
    of the scan, then the openers left on the stack. *)
Definition bracketIssues (code : jsString) : list string :=
  let '(stack, issues) := bracketLoop code 0 [] [] in
  (* for (const item of stack) issues.push(...) *)
  issues ++ map unclosedMessage stack.

Section Parsers.

(** The two parsers the validator calls are outside the repository.
    [newFunction code] is [None] when [new Function(code)] returns and
    [Some e] when it throws [e]; [parse code] is [None] when Babel's
    [parse(code, { sourceType: "module", plugins: ["jsx", "typescript"] })]
    returns and [Some m] when it throws an error of message [m]. *)
Variable newFunction : jsString -> option JsError.
Variable parse : jsString -> option string.

Definition checkCommonSyntaxIssues (code : jsString) : list string :=
  (* 1. Check unmatched brackets *)
  let issues := bracketIssues code in
  (* 2. Check syntax via Babel parser *)
  match parse code with
  | None => issues
  | Some message => issues ++ ["Syntax error: " +:+ message]
  end.

Definition validateSyntax (code : jsString) : ValidationResult.t :=
  match newFunction code with
  | Some error =>
      ValidationResult.mk false
        (Some ("Syntax error: " +:+ errorMessage error))
        ["Code contains syntax errors that prevent execution"]
        (SyntaxFailure (errorMessage error) (errorName error))
  | None =>
      let syntaxIssues := checkCommonSyntaxIssues code in
      if 0 <? Z.of_nat (length syntaxIssues) then
        ValidationResult.mk false (Some "Syntax validation failed")
          syntaxIssues (SyntaxIssues syntaxIssues)
      else
        ValidationResult.mk true None [] SyntaxPassed
  end.

End Parsers.

(** ** FixerBase *)

Module FixerBase.

Definition safeReplace (code : jsString) (start end_ : Z)
  (replacement : jsString) : Completion jsString :=
  if ((start <? 0) || (len code <? end_) || (end_ <? start))%bool
  then Throw (Error "Invalid replacement bounds")
  else Normal (slice code 0 start ++ replacement
                 ++ slice code end_ (len code)).

End FixerBase.

(** ** globalFunction.jsx *)

Module ReplaceResult.
Record t : Type := mk {
  success : bool;
  code : jsString;
  message : string;
  warnings : list string
}.
End ReplaceResult.

Section GlobalFunction.

Variable newFunction : jsString -> option JsError.
Variable parse : jsString -> option string.

(** The exported [safeReplace].  [contextCache] is the cache of the shared
    [contextAnalyzer] instance of the module; the result comes with the
    cache the call leaves. *)
Definition safeReplace (contextCache : gmap string LexicalContext)
  (code : jsString) (line column length : Z) (replacement : jsString)
  : ReplaceResult.t * gmap string LexicalContext :=
  let catch (error : JsError) :=
    ReplaceResult.mk false code
      ("Error during replacement: " +:+ errorMessage error)
      ["Unexpected error occurred during text replacement"] in
  (* Check if the position is safe for modification *)
  match findSafeFixZone contextCache code line column with
  | Throw error => (catch error, contextCache)
  | Normal (safeZone, contextCache) =>
      if negb (SafeZone.isSafe safeZone) then
        (ReplaceResult.mk false code
           ("Cannot replace text: " +:+ SafeZone.reason safeZone)
           ["Position is not safe for modification"],
         contextCache)
      else
        match getAbsolutePosition code line column with
        | Throw error => (catch error, contextCache)
        | Normal absolutePos =>
            let beforeText := substring code 0 absolutePos in
            let afterText := substringFrom code (absolutePos + length) in
            let newCode := beforeText ++ replacement ++ afterText in
            (* Validate the result *)
            let validation := validateSyntax newFunction parse newCode in
            if negb (ValidationResult.isValid validation) then
              (ReplaceResult.mk false code
                 ("Replacement would create invalid syntax: "
                    +:+ interpolate id (ValidationResult.error validation))
                 (ValidationResult.warnings validation),
               contextCache)
            else
              (ReplaceResult.mk true newCode "Text replaced successfully" [],
               contextCache)
        end
  end.

End GlobalFunction.


(** ** Histories of calls *)

(** The caches an analyzer instance can hold: empty when it is constructed
    or cleared, and what a call of [analyzePosition] leaves. *)
Inductive reachableCache : gmap string LexicalContext -> Prop :=
| reachable_new : reachableCache ∅
| reachable_analyzePosition contextCache code line column context cache' :
    reachableCache contextCache ->
    analyzePosition contextCache code line column = Normal (context, cache') ->
    reachableCache cache'.

(** A sequence of [recordFix] calls, each given by the record it appends. *)
Definition recordFixes (calls : list FixRecord) (this : CodeValidator)
  : CodeValidator :=
  fold_left
    (fun this r =>
       recordFix (timestamp r) (ruleId r) (line r) (column r)
         (originalText r) (fixedText r) this)
    calls this.

(** The context a scan that reads nothing returns. *)
Definition defaultContext : LexicalContext :=
  mkContext false false false false false None None.

(** * Further code of the repository *)

(** [array.length] *)
Definition count {A} (l : list A) : Z := Z.of_nat (length l).

(** [lines.join('\n')] *)
Fixpoint join_newline (lines : list jsString) : jsString :=
  match lines with
  | [] => []
  | [l] => l
  | l :: rest => l ++ chr "010" :: join_newline rest
  end.

(** The line and column of offset [i], as [findEndOfFunction],
    [findEndOfVariableDeclaration] and [findPatternOccurrences] compute
    them:
    [lines = code.substring(0, i).split('\n'); line = lines.length;
     column = lines[lines.length - 1].length + 1]. *)
Definition lineColumnAt (code : jsString) (i : Z) : Z * Z :=
  let lines := split_newline (substring code 0 i) in
  let line := count lines in
  match lines.[count lines - 1] with
  | Some l => (line, len l + 1)
  | None => (line, 0) (* not reached: [split] returns at least one line *)
  end.

(** [FixerBase.isValidPosition] *)
Definition isValidPosition (code : jsString) (line column : Z) : bool :=
  let lines := split_newline code in
  if ((line <? 1) || (count lines <? line))%bool then false
  else
    match lines.[line - 1] with
    | Some targetLine =>
        if ((column <? 1) || (len targetLine + 1 <? column))%bool
        then false else true
    | None => false (* not reached: [line] is in range *)
    end.

(** A line holds no newline. *)
Definition newline_free (l : jsString) : Prop := chr "010" ∉ l.

(** The sum of [lines[k].length + 1] over the first [n] lines: the offset
    at which line [n] (counted from 0) starts. *)
Fixpoint lineStart (lines : list jsString) (n : nat) {struct n} : Z :=
  match n, lines with
  | S n', l :: rest => len l + 1 + lineStart rest n'
  | _, _ => 0
  end.

(** At most one of the flags is set. *)
Definition atMostOne (flags : list bool) : bool :=
  (length (List.filter (fun b : bool => b) flags) <=? 1)%nat.

(** What the scanning loop keeps true of its variables: it is in at most
    one of the five quoted or commented states, never inside a regular
    expression, and [templateDepth] is at least 1 inside a template and 0
    outside. *)
Definition scanInvariant (s : Scan.locals) : Prop :=
  Scan.inRegex s = false
  /\ Scan.regexContext s = false
  /\ atMostOne [Scan.inSingleQuote s; Scan.inDoubleQuote s; Scan.inTemplate s;
                Scan.inSingleComment s; Scan.inMultiComment s] = true
  /\ (if Scan.inTemplate s then 1 <= Scan.templateDepth s
      else Scan.templateDepth s = 0).

(** The invariant where the strings and templates are handled: the
    comments have been left. *)
Definition codeInvariant (s : Scan.locals) : Prop :=
  scanInvariant s
  /\ Scan.inSingleComment s = false /\ Scan.inMultiComment s = false.

(** The contexts the scan can return. *)
Definition possibleContexts : list LexicalContext :=
  [ defaultContext;
    mkContext true false false false false (Some "'"%char) None;
    mkContext true false false false false (Some "034"%char) None;
    mkContext false true false false false None (Some single);
    mkContext false true false false false None (Some multi);
    mkContext false false false true false (Some "`"%char) None;
    mkContext false false false true true (Some "`"%char) None ].

(** The cache answers for [code] as the scan does. *)
Definition agreesWith (contextCache : gmap string LexicalContext)
  (code : jsString) : Prop :=
  forall absolutePos context,
    contextCache !! cacheKey code absolutePos = Some context ->
    context = analyzeAbsolutePosition code absolutePos.

(** Buffers of which no two distinct ones have the same length. *)
Definition lengthDistinct (buffers : jsString -> Prop) : Prop :=
  forall a b, buffers a -> buffers b -> len a = len b -> a = b.

(** The text holds no minus sign. *)
Fixpoint noDash (s : string) : Prop :=
  match s with
  | EmptyString => True
  | String a s => a <> "-"%char /\ noDash s
  end.

(** [createSnapshot] *)
Definition createSnapshot (code : jsString) (snapshotId : string)
  (this : CodeValidator) : CodeValidator :=
  mkCodeValidator (fixHistory this)
    (<[snapshotId := code]> (codeSnapshots this)).

Module Comparison.
Record t : Type := mk {
  identical : bool;
  lengthDiff : Z;
  lineDiff : Z;
  hasChanges : bool
}.
End Comparison.

(** [compareWithSnapshot].  The test [!snapshot] holds for a missing
    snapshot and for the empty string. *)
Definition compareWithSnapshot (currentCode : jsString) (snapshotId : string)
  (this : CodeValidator) : Completion Comparison.t :=
  let notFound :=
    Throw (Error ("Snapshot '" +:+ snapshotId +:+ "' not found")) in
  match codeSnapshots this !! snapshotId with
  | None => notFound
  | Some [] => notFound
  | Some snapshot =>
      Normal
        (Comparison.mk
           (bool_decide (currentCode = snapshot))
           (len currentCode - len snapshot)
           (count (split_newline currentCode) - count (split_newline snapshot))
           (negb (bool_decide (currentCode = snapshot))))
  end.

(** [canRevert(history = null)]: [history || this.fixHistory]; an array,
    empty or not, is truthy. *)
Definition canRevert (history : option (list FixRecord))
  (this : CodeValidator) : bool :=
  let targetHistory :=
    match history with
    | Some h => h
    | None => fixHistory this
    end in
  0 <? count targetHistory.

Module Stats.
Record t : Type := mk {
  fixHistorySize : Z;
  snapshotCount : Z;
  lastFixTime : option Z
}.
End Stats.

(** [getStats] of the validator. *)
Definition getStats (this : CodeValidator) : Stats.t :=
  Stats.mk (count (fixHistory this))
    (Z.of_nat (size (codeSnapshots this)))
    (if 0 <? count (fixHistory this)
     then timestamp <$> (fixHistory this).[count (fixHistory this) - 1]
     else None).

(** [clear] of the validator. *)
Definition clearValidator (this : CodeValidator) : CodeValidator :=
  mkCodeValidator [] ∅.

(** [array.slice(a, b)] *)
Definition sliceArray {A} (l : list A) (a b : Z) : list A :=
  let from := relIndex (count l) a in
  let to := relIndex (count l) b in
  take (Z.to_nat (to - from)) (drop (Z.to_nat from) l).

(** [extractLines(code, error)]; [endLine] is [error.endLine], [None] when
    the property is missing. *)
Definition extractLines (code : jsString) (line : Z) (endLine : option Z)
  : jsString :=
  let startLine := line in
  (* error.endLine || error.line *)
  let endLine :=
    match endLine with
    | Some e => if e =? 0 then line else e
    | None => line
    end in
  let lines := split_newline code in
  if ((startLine <? 1) || (count lines <? startLine))%bool then []
  else if (negb (endLine =? 0) && negb (endLine =? startLine))%bool
  then join_newline (sliceArray lines (startLine - 1) endLine)
  else match lines.[startLine - 1] with
       | Some l => l
       | None => []
       end.

(** [getLineContent] of [globalFunction.jsx] and [getLine] of
    [FixerBase]: [lines[line - 1] || '']. *)
Definition getLineContent (code : jsString) (line : Z) : jsString :=
  match (split_newline code).[line - 1] with
  | Some l => l
  | None => []
  end.

(** Texts whose brackets are matched: built from characters that are no
    brackets, from pairs of an opener and its closer around a matched
    text, and by concatenation. *)
Inductive balanced : jsString -> Prop :=
| balanced_nil : balanced []
| balanced_char u s :
    brackets u = None -> includes bracketValues u = false ->
    balanced s -> balanced (u :: s)
| balanced_pair o c s t :
    brackets o = Some c -> balanced s -> balanced t ->
    balanced (o :: s ++ c :: t).

(** The text read so far, when the scan has raised no issue: a matched
    text, then for each opener on the stack the opener and a matched
    text. *)
Inductive frames : list StackItem.t -> jsString -> Prop :=
| frames_nil b : balanced b -> frames [] b
| frames_push stack P o c k b :
    frames stack P -> brackets o = Some c -> balanced b ->
    frames (stack ++ [StackItem.mk o k]) (P ++ o :: b).

(** ** FixerRegistry *)

Module FixerRegistry.

Inductive Complexity : Type := simple | complex.

(** What the registry reads of a fixer, an instance of a subclass of
    [FixerBase]: its [ruleId], its [complexity] (the constructor gives
    ['simple'] when none is passed) and the name of its class. *)
Record Fixer : Type := mkFixer {
  ruleId : string;
  complexity : Complexity;
  className : string
}.

(** The value of [info.enabled].  [register] and [registerExistingFixers]
    store [true]; [setFixerEnabled] stores its argument as it is,
    whatever its type.  The registry reads the truth value of it
    ([!info.enabled], [info && info.enabled]) and nothing else, so a
    value that is neither [undefined] nor a boolean is kept with its
    truth value only. *)
Inductive Value : Type :=
| undefined
| boolean (b : bool)
| other (truthy : bool).

(** [ToBoolean] *)
Definition toBoolean (v : Value) : bool :=
  match v with
  | undefined => false
  | boolean b => b
  | other truthy => truthy
  end.

Record FixerInfo : Type := mkInfo {
  info_ruleId : string;
  info_complexity : Complexity;
  modulePath : string;
  enabled : Value
}.

(** The fields of a [FixerRegistry] instance. *)
Record t : Type := mk {
  fixers : gmap string Fixer;
  fixerInfo : gmap string FixerInfo;
  initialized : bool
}.

(** [new FixerRegistry()] *)
Definition new : t := mk ∅ ∅ false.

Definition register (fixer : Fixer) (this : t) : Completion t :=
  if bool_decide (ruleId fixer = EmptyString)
  then Throw (Error "Fixer must have a ruleId property")
  else
    match fixers this !! ruleId fixer with
    | Some _ => Normal this (* already registered, skipping *)
    | None =>
        Normal
          (mk (<[ruleId fixer := fixer]> (fixers this))
             (<[ruleId fixer :=
                  mkInfo (ruleId fixer) (complexity fixer) (className fixer)
                    (boolean true)]> (fixerInfo this))
             (initialized this))
    end.

(** [getFixer]: [None] is [null]. *)
Definition getFixer (ruleId : string) (this : t) : option Fixer :=
  match fixers this !! ruleId with
  | None => None
  | Some fixer =>
      match fixerInfo this !! ruleId with
      | Some info =>
          if negb (toBoolean (enabled info)) then None else Some fixer
      | None => Some fixer
      end
  end.

(** [isFixable]: [false] without a fixer, else [info && info.enabled]:
    [undefined] without an info, and the value of [info.enabled] with
    one. *)
Definition isFixable (ruleId : string) (this : t) : Value :=
  match fixers this !! ruleId with
  | None => boolean false
  | Some _ =>
      match fixerInfo this !! ruleId with
      | None => undefined
      | Some info => enabled info
      end
  end.

Definition setFixerEnabled (ruleId : string) (value : Value) (this : t)
  : bool * t :=
  match fixerInfo this !! ruleId with
  | None => (false, this)
  | Some info =>
      (true,
       mk (fixers this)
         (<[ruleId :=
              mkInfo (info_ruleId info) (info_complexity info)
                (modulePath info) value]> (fixerInfo this))
         (initialized this))
  end.

Definition unregister (ruleId : string) (this : t) : bool * t :=
  (bool_decide (is_Some (fixers this !! ruleId)),
   mk (delete ruleId (fixers this)) (delete ruleId (fixerInfo this))
     (initialized this)).

Definition clear (this : t) : t := mk ∅ ∅ false.

Definition knownRules : list string :=
  ["quotes"; "semi"; "no-unused-vars"; "eol-last"; "eqeqeq";
   "no-extra-semi"; "no-trailing-spaces"]%string.

(** [registerExistingFixers]: an info for each known rule, and no
    fixer.  The method is [async] and holds no [await]: a call runs to
    its end before it returns. *)
Definition registerExistingFixers (this : t) : t :=
  mk (fixers this)
    (fold_left
       (fun infos ruleId =>
          <[ruleId :=
              mkInfo ruleId simple ("../existing/" +:+ ruleId +:+ ".js")
                (boolean true)]> infos)
       knownRules (fixerInfo this))
    (initialized this).

(** [autoDiscoverFixers] is [async] and runs in two parts.  The call
    itself runs up to the [await]: it returns at once on an initialized
    registry, and else runs [registerExistingFixers] and is suspended
    (the boolean of the result).  Other calls on the registry can run
    before the suspended call is resumed. *)
Definition autoDiscoverFixers_call (this : t) : t * bool :=
  if initialized this then (this, false)
  else (registerExistingFixers this, true).

(** The rest of a suspended call, behind the [await], on the registry as
    it is by then: [this.initialized = true]. *)
Definition autoDiscoverFixers_resume (this : t) : t :=
  mk (fixers this) (fixerInfo this) true.

(** The registries that the methods build from a new one, each with the
    number of calls of [autoDiscoverFixers] that are suspended at their
    [await].  A call of a method runs on the registry as the calls
    before have left it, between the two parts of [autoDiscoverFixers]
    as well; a suspended call is resumed once.  [registerFixer] changes
    the registry through [register] only, and the other methods do not
    change it. *)
Inductive reachable : t -> nat -> Prop :=
| reachable_new : reachable new 0
| reachable_register fixer this this' suspended :
    reachable this suspended -> register fixer this = Normal this' ->
    reachable this' suspended
| reachable_setFixerEnabled ruleId value this suspended :
    reachable this suspended ->
    reachable (snd (setFixerEnabled ruleId value this)) suspended
| reachable_unregister ruleId this suspended :
    reachable this suspended ->
    reachable (snd (unregister ruleId this)) suspended
| reachable_clear this suspended :
    reachable this suspended -> reachable (clear this) suspended
| reachable_registerExistingFixers this suspended :
    reachable this suspended ->
    reachable (registerExistingFixers this) suspended
| reachable_autoDiscoverFixers_call this suspended :
    reachable this suspended ->
    reachable (fst (autoDiscoverFixers_call this))
      (if snd (autoDiscoverFixers_call this) then S suspended
       else suspended)
| reachable_autoDiscoverFixers_resume this suspended :
    reachable this (S suspended) ->
    reachable (autoDiscoverFixers_resume this) suspended.

(** Every registered fixer has an info, and is stored under its rule. *)
Definition consistent (this : t) : Prop :=
  forall r fixer,
    fixers this !! r = Some fixer ->
    ruleId fixer = r /\ is_Some (fixerInfo this !! r).

End FixerRegistry.

(** ** Structural extraction *)




Module FindEnd.

(** How one pass of the loop of [findEndOfFunction] ends. *)
Inductive pass : Type :=
| Return (i : Z) (contextCache : gmap string LexicalContext)
| Next (stack : list N) (contextCache : gmap string LexicalContext)
| Raise (e : JsError).

(** The body of the [for] loop at index [i]. *)
Definition body (contextCache : gmap string LexicalContext)
  (code : jsString) (i : Z) (stack : list N) : pass :=
  let char := code.[i] in
  (* Convert position to line/column for context analysis *)
  let '(line, column) := lineColumnAt code i in
  match analyzePosition contextCache code line column with
  | Throw e => Raise e
  | Normal (context, contextCache) =>
      (* Only process structural characters if we're not in strings or
         comments *)
      if (negb (inString context) && negb (inComment context))%bool then
        if charIs char "{" then Next (stack ++ [chr "{"]) contextCache
        else if charIs char "}" then
          let stack := removelast stack in
          if Z.of_nat (length stack) =? 0 then Return i contextCache
          else Next stack contextCache
        else Next stack contextCache
      else Next stack contextCache
  end.

End FindEnd.

(** The loop of [findEndOfFunction] from index [i] on. *)
Equations? findEndOfFunction_loop
  (contextCache : gmap string LexicalContext) (code : jsString) (i : Z)
  (stack : list N) : Completion (Z * gmap string LexicalContext)
  by wf (Z.to_nat (len code - i)) lt :=
  findEndOfFunction_loop contextCache code i stack
    with inspect (i <? len code) := {
    | exist _ false _ => Normal (-1, contextCache);
    | exist _ true _ with FindEnd.body contextCache code i stack := {
      | FindEnd.Return r cache' => Normal (r, cache');
      | FindEnd.Next stack' cache' =>
          findEndOfFunction_loop cache' code (i + 1) stack';
      | FindEnd.Raise e => Throw e } }.
Proof. apply Z.ltb_lt in e. lia. Qed.

Definition findEndOfFunction (contextCache : gmap string LexicalContext)
  (code : jsString) (start : Z)
  : Completion (Z * gmap string LexicalContext) :=
  findEndOfFunction_loop contextCache code start [].

Section FunctionNode.

Variable newFunction : jsString -> option JsError.
Variable parse : jsString -> option string.


End FunctionNode.

(** ** [addCommentsToEachLine] *)

(** [s.trim() === '']: every character is white space or a line
    terminator. *)
Definition isBlank (s : jsString) : bool :=
  forallb (fun u => isWhitespace (Some u)) s.

(** [line.match(/^\s*/)[0]]: the longest prefix of white space. *)
Fixpoint leadingWhitespace (line : jsString) : jsString :=
  match line with
  | u :: rest =>
      if isWhitespace (Some u) then u :: leadingWhitespace rest else []
  | [] => []
  end.

(** The function mapped over the lines. *)
Definition commentLine (line : jsString) : jsString :=
  (* Preserve leading whitespace *)
  let leadingWhitespace := leadingWhitespace line in
  let content := substringFrom line (len leadingWhitespace) in
  if bool_decide (content = []) then line (* Keep empty lines as-is *)
  else leadingWhitespace ++ js "// " ++ content.

(** The exported [addCommentsToEachLine], on a string. *)
Definition addCommentsToEachLine (inputString : jsString) : jsString :=
  if isBlank inputString then []
  else join_newline (map commentLine (split_newline inputString)).

(** The variables of the scan at index [i] in plain code, and inside a
    single-line comment. *)
Definition plainAt (i : Z) : Scan.locals :=
  Scan.mkLocals i false false false false false false 0 false.

Definition commentAt (i : Z) : Scan.locals :=
  Scan.mkLocals i false false false true false false 0 false.

(** Every character of the text is white space. *)
Definition whitespaceOnly (s : jsString) : Prop :=
  forall u, u ∈ s -> isWhitespace (Some u) = true.

(** The verdicts of the gate: whether the position is safe, and the
    reason. *)
Definition possibleVerdicts : list (bool * string) :=
  [ (false, "Position is inside a string literal (')");
    (false, "Position is inside a string literal (" +:+ String "034" ")");
    (false, "Position is inside a single comment");
    (false, "Position is inside a multi comment");
    (false, "Position is inside template literal text");
    (true, "Position is safe for modifications") ]%string.

(** * Properties *)

(** ** The loops, unfolded once *)

Lemma skipWhitespaceBack_step (code : jsString) (i : Z) :
  skipWhitespaceBack code i =
  if ((0 <=? i) && isWhitespace code.[i])%bool
  then skipWhitespaceBack code (i - 1) else i.
Proof.
  funelim (skipWhitespaceBack code i).
  all: rewrite e; reflexivity.
Qed.

Lemma wordStartBack_step (code : jsString) (wordStart : Z) :
  wordStartBack code wordStart =
  if ((0 <=? wordStart) && isWordChar code.[wordStart])%bool
  then wordStartBack code (wordStart - 1) else wordStart.
Proof.
  funelim (wordStartBack code wordStart).
  all: rewrite e; reflexivity.
Qed.

Lemma countBackslashes_step (code : jsString) (i escapeCount : Z) :
  countBackslashes code i escapeCount =
  if ((0 <=? i) && charIs code.[i] "\")%bool
  then countBackslashes code (i - 1) (escapeCount + 1) else escapeCount.
Proof.
  funelim (countBackslashes code i escapeCount).
  all: rewrite e; reflexivity.
Qed.

Lemma loop_step (code : jsString) (position : Z) (s : Scan.locals) :
  Scan_loop.loop code position s =
  if Scan_loop.running code position s
  then Scan_loop.loop code position (Scan_loop.body code s) else s.
Proof.
  funelim (Scan_loop.loop code position s).
  all: rewrite e; reflexivity.
Qed.

Lemma getAbsolutePosition_loop_step (lines : list jsString)
  (line i position : Z) :
  getAbsolutePosition_loop lines line i position =
  if i <? line - 1
  then match lines.[i] with
       | Some l => getAbsolutePosition_loop lines line (i + 1)
                     (position + (len l + 1))
       | None => Throw (TypeError undefinedLengthMessage)
       end
  else Normal position.
Proof.
  funelim (getAbsolutePosition_loop lines line i position).
  all: rewrite e; try rewrite Heq; reflexivity.
Qed.

(** ** Invariants of the scanning loop *)

Lemma loop_invariant (P : Scan.locals -> Prop) (code : jsString)
  (position : Z) :
  (forall s, Scan_loop.running code position s = true ->
             P s -> P (Scan_loop.body code s)) ->
  forall s, P s -> P (Scan_loop.loop code position s).
Proof.
  intros Hbody s.
  funelim (Scan_loop.loop code position s); intros HP.
  - apply H; auto.
  - exact HP.
Qed.

(** ** The opening slash of a regular expression closes it *)

Lemma charIs_Some (c : option N) (a : ascii) :
  charIs c a = true -> c = Some (chr a).
Proof.
  destruct c as [u|]; cbn; [|discriminate].
  intros ->%N.eqb_eq. reflexivity.
Qed.

Lemma item_neg {A} (l : list A) (i : Z) : i < 0 -> l.[i] = None.
Proof. intros Hi. unfold item. apply Z.ltb_lt in Hi. rewrite Hi. reflexivity. Qed.

(** A slash that follows a backslash is never taken for the start of a
    regular expression: the backslash is no white space, no preceder and no
    letter, so the word before the slash is empty. *)
Lemma couldBeRegexStart_after_backslash (code : jsString) (position : Z) :
  charIs code.[position - 1] "\" = true ->
  couldBeRegexStart code position = false.
Proof.
  intros Hc. apply charIs_Some in Hc.
  assert (0 <= position - 1) as Hpos.
  { destruct (Z.lt_ge_cases (position - 1) 0) as [Hneg|]; [|assumption].
    rewrite (item_neg _ _ Hneg) in Hc. discriminate. }
  unfold couldBeRegexStart.
  rewrite skipWhitespaceBack_step, Hc.
  replace (isWhitespace (Some (chr "\"))) with false by reflexivity.
  rewrite andb_false_r.
  destruct (position - 1 <? 0) eqn:Hlt; [apply Z.ltb_lt in Hlt; lia|].
  cbn zeta. rewrite Hc.
  replace (includes regexPreceders (chr "\")) with false
    by (vm_compute; reflexivity).
  rewrite wordStartBack_step, Hc.
  replace (isWordChar (Some (chr "\"))) with false by reflexivity.
  rewrite andb_false_r.
  assert (slice code (position - 1 + 1) (position - 1 + 1) = []) as ->.
  { unfold slice. rewrite Z.sub_diag. reflexivity. }
  vm_compute. reflexivity.
Qed.

Lemma isEscaped_no_backslash (code : jsString) (position : Z) :
  charIs code.[position - 1] "\" = false ->
  isEscaped code position = false.
Proof.
  intros Hc. unfold isEscaped.
  rewrite countBackslashes_step, Hc, andb_false_r. reflexivity.
Qed.

Lemma couldBeRegexStart_not_escaped (code : jsString) (position : Z) :
  couldBeRegexStart code position = true -> isEscaped code position = false.
Proof.
  intros Hstart.
  destruct (charIs code.[position - 1] "\") eqn:Hc.
  - rewrite (couldBeRegexStart_after_backslash _ _ Hc) in Hstart.
    discriminate.
  - apply isEscaped_no_backslash, Hc.
Qed.

Section InRegex.
Import Scan Scan_loop.

Lemma inRegex_endRegex_handleRegex (code : jsString) (s : locals) :
  inRegex s = false ->
  inRegex (endRegex code code.[i s] (handleRegex code code.[i s] s)) = false.
Proof.
  intros Hs. unfold handleRegex.
  destruct (negb (inSingleQuote s) && negb (inDoubleQuote s)
            && negb (inTemplate s) && charIs code.[i s] "/")%bool eqn:Hcond.
  - destruct (couldBeRegexStart code (i s)) eqn:Hstart.
    + apply andb_prop in Hcond as [_ Hslash].
      unfold endRegex. cbn [set_inRegex inRegex i].
      rewrite Hslash, (couldBeRegexStart_not_escaped _ _ Hstart).
      reflexivity.
    + unfold endRegex. rewrite Hs. exact Hs.
  - unfold endRegex. rewrite Hs. exact Hs.
Qed.

Lemma inRegex_singleQuotes char s : inRegex (singleQuotes char s) = inRegex s.
Proof. unfold singleQuotes. case_if; reflexivity. Qed.

Lemma inRegex_doubleQuotes char s : inRegex (doubleQuotes char s) = inRegex s.
Proof. unfold doubleQuotes. case_if; reflexivity. Qed.

Lemma inRegex_templateLiterals char s :
  inRegex (templateLiterals char s) = inRegex s.
Proof. unfold templateLiterals. repeat case_if; reflexivity. Qed.

Lemma inRegex_closeExpression char s :
  inRegex (closeExpression char s) = inRegex s.
Proof. unfold closeExpression. case_if; reflexivity. Qed.

Lemma inRegex_endSingleComment char s :
  inRegex (endSingleComment char s) = inRegex s.
Proof. unfold endSingleComment. case_if; reflexivity. Qed.

Lemma inRegex_codeBody (code : jsString) (nextChar : option N) (s : locals) :
  inRegex s = false ->
  inRegex (codeBody code code.[i s] nextChar s) = false.
Proof.
  intros Hs. unfold codeBody.
  rewrite (inRegex_endRegex_handleRegex code s Hs).
  case_if; cbn [advance set_templateDepth inRegex];
    rewrite ?inRegex_closeExpression, inRegex_templateLiterals,
      inRegex_doubleQuotes, inRegex_singleQuotes;
    apply inRegex_endRegex_handleRegex, Hs.
Qed.

(** One pass of the loop that starts outside a regular expression ends
    outside a regular expression. *)
Lemma inRegex_body (code : jsString) (s : locals) :
  inRegex s = false -> inRegex (body code s) = false.
Proof.
  intros Hs. unfold body.
  repeat case_if; cbn [advance set_inSingleComment set_inMultiComment inRegex];
    rewrite ?inRegex_endSingleComment; try exact Hs.
  pose proof (inRegex_codeBody code code.[i s + 1]
                (endSingleComment code.[i s] s)) as H.
  rewrite i_endSingleComment, inRegex_endSingleComment in H.
  apply H, Hs.
Qed.

Lemma inRegex_loop (code : jsString) (position : Z) (s : locals) :
  inRegex s = false -> inRegex (loop code position s) = false.
Proof.
  apply (loop_invariant (fun s => inRegex s = false)).
  intros s' _. apply inRegex_body.
Qed.

End InRegex.

Lemma inRegex_analyzeAbsolutePosition (code : jsString) (position : Z) :
  inRegex (analyzeAbsolutePosition code position) = false.
Proof.
  unfold analyzeAbsolutePosition. cbn [inRegex].
  apply inRegex_loop. reflexivity.
Qed.

(** ** Offsets outside the buffer *)

Lemma loop_same_test (code : jsString) (p q : Z) :
  (forall s, Scan_loop.running code p s = Scan_loop.running code q s) ->
  forall s, Scan_loop.loop code p s = Scan_loop.loop code q s.
Proof.
  intros Htest s.
  funelim (Scan_loop.loop code p s);
    rewrite (loop_step code q s), <- Htest, e; auto.
Qed.

Lemma loop_beyond_end (code : jsString) (position : Z) (s : Scan.locals) :
  len code <= position ->
  Scan_loop.loop code position s = Scan_loop.loop code (len code) s.
Proof.
  intros Hle. apply loop_same_test. intros s'. unfold Scan_loop.running.
  destruct (Z.ltb_spec (Scan.i s') (len code)) as [Hlt|Hge];
    [|rewrite !andb_false_r; reflexivity].
  rewrite !andb_true_r.
  destruct (Z.ltb_spec (Scan.i s') position); [reflexivity|lia].
Qed.

Lemma loop_not_entered (code : jsString) (position : Z) (s : Scan.locals) :
  position <= Scan.i s -> Scan_loop.loop code position s = s.
Proof.
  intros Hle. rewrite loop_step. unfold Scan_loop.running.
  destruct (Z.ltb_spec (Scan.i s) position); [lia|reflexivity].
Qed.

(** ** The cache *)

(** A fresh or cleared cache answers with the scan itself. *)
Lemma analyzePosition_empty (code : jsString) (line column absolutePos : Z) :
  getAbsolutePosition code line column = Normal absolutePos ->
  analyzePosition ∅ code line column =
  Normal (analyzeAbsolutePosition code absolutePos,
          {[ cacheKey code absolutePos := analyzeAbsolutePosition code absolutePos ]}).
Proof.
  intros Hpos. unfold analyzePosition. rewrite Hpos, lookup_empty.
  reflexivity.
Qed.

(** No context held by a reachable cache is inside a regular expression. *)
Lemma reachableCache_inRegex (contextCache : gmap string LexicalContext) :
  reachableCache contextCache ->
  forall key context,
    contextCache !! key = Some context -> inRegex context = false.
Proof.
  induction 1 as [|cache code line column context cache' _ IH Hcall];
    intros key ctx Hkey.
  - rewrite lookup_empty in Hkey. discriminate.
  - unfold analyzePosition in Hcall.
    destruct (getAbsolutePosition code line column) as [absolutePos|];
      [|discriminate].
    destruct (cache !! cacheKey code absolutePos) as [hit|] eqn:Hhit.
    + injection Hcall as _ <-. eauto.
    + injection Hcall as _ <-.
      rewrite lookup_insert in Hkey. case_decide.
      * injection Hkey as <-. apply inRegex_analyzeAbsolutePosition.
      * eauto.
Qed.

Lemma analyzePosition_inRegex (contextCache : gmap string LexicalContext)
  (code : jsString) (line column : Z) context cache' :
  reachableCache contextCache ->
  analyzePosition contextCache code line column = Normal (context, cache') ->
  inRegex context = false.
Proof.
  intros Hreach Hcall.
  unfold analyzePosition in Hcall.
  destruct (getAbsolutePosition code line column) as [absolutePos|];
    [|discriminate].
  destruct (contextCache !! cacheKey code absolutePos) as [hit|] eqn:Hhit.
  - injection Hcall as <- _. exact (reachableCache_inRegex _ Hreach _ _ Hhit).
  - injection Hcall as <- _. apply inRegex_analyzeAbsolutePosition.
Qed.

(** ** The scan on small buffers *)

(** Single quotes inside a double-quoted string are plain characters
    (the buffer is [a 'b' c] between double quotes). *)
Example quotes_nested :
  analyzeAbsolutePosition (chr "034" :: js "a 'b' c" ++ [chr "034"]) 5
  = mkContext true false false false false (Some "034"%char) None.
Proof. vm_compute. reflexivity. Qed.

Example line_comment_ends_at_newline :
  inComment (analyzeAbsolutePosition (js "a // b
c") 5) = true
  /\ inComment (analyzeAbsolutePosition (js "a // b
c") 8) = false.
Proof. split; vm_compute; reflexivity. Qed.

Example block_comment :
  analyzeAbsolutePosition (js "/* ' */ x") 4
  = mkContext false true false false false None (Some multi)
  /\ analyzeAbsolutePosition (js "/* ' */ x") 8 = defaultContext.
Proof. split; vm_compute; reflexivity. Qed.

(** ** The position mapper *)

(** Reading past the last line throws: [lines[i]] is [undefined] there. *)
Lemma getAbsolutePosition_beyond_last_line :
  getAbsolutePosition (js "ab") 3 1 = Throw (TypeError undefinedLengthMessage)
  /\ analyzePosition ∅ (js "ab") 3 1 = Throw (TypeError undefinedLengthMessage).
Proof. split; vm_compute; reflexivity. Qed.

(** * The claims *)

(** C1.  The regex-or-division heuristic on the two buffers of the claim.
    In [x = a / b] the offset after the slash is not inside a regular
    expression.  In [return /ab/] the slash at offset 7 is taken for the
    start of a regular expression ([couldBeRegexStart] is true), and the
    scan still reports the offset after it, 8, as not inside one: the
    test that ends a regular expression runs on the very slash that
    opened it. *)
Theorem regex_heuristic_on_examples :
  inRegex (analyzeAbsolutePosition (js "x = a / b") 7) = false
  /\ couldBeRegexStart (js "return /ab/") 7 = true
  /\ inRegex (analyzeAbsolutePosition (js "return /ab/") 8) = false.
Proof. repeat apply conj; vm_compute; reflexivity. Qed.

(** C2, as stated, fails: an offset beyond the end of a buffer that ends
    inside a string is classified as inside the string. *)
Lemma classify_beyond_end_not_default :
  len (js "'") < 2
  /\ analyzeAbsolutePosition (js "'") 2
     = mkContext true false false false false (Some "'"%char) None
  /\ analyzeAbsolutePosition (js "'") 2 <> defaultContext.
Proof.
  split; [reflexivity|]. split; [vm_compute; reflexivity|].
  vm_compute. discriminate.
Qed.

(** C2, amended.  For an offset outside the buffer the scan returns a
    context and does not throw: the default context for a negative
    offset, and the context of the end of the buffer for an offset beyond
    the end. *)
Theorem classify_out_of_range (code : jsString) (o : Z) :
  o < 0 \/ len code < o ->
  analyzeAbsolutePosition code o =
  if o <? 0 then defaultContext else analyzeAbsolutePosition code (len code).
Proof.
  intros Hout. destruct (Z.ltb_spec o 0) as [Hneg|Hpos].
  - unfold analyzeAbsolutePosition.
    rewrite loop_not_entered by (cbn; lia). reflexivity.
  - unfold analyzeAbsolutePosition.
    rewrite loop_beyond_end by lia. reflexivity.
Qed.

Lemma classify_out_of_range_witness :
  (5 < 0 \/ len (js "'a") < 5)
  /\ analyzeAbsolutePosition (js "'a") 5
     = analyzeAbsolutePosition (js "'a") (len (js "'a")).
Proof.
  split; [right; reflexivity|].
  apply (classify_out_of_range (js "'a") 5). right; reflexivity.
Defined.

(** C6.  In the buffer [`a${b}c`] the offset of [b] is inside the template
    and inside a substitution; the offsets of [a] and of [c] are inside the
    template and outside a substitution. *)
Theorem template_substitution_on_example :
  let B := js "`a${b}c`" in
  B.[4] = Some (chr "b") /\ B.[1] = Some (chr "a") /\ B.[6] = Some (chr "c")
  /\ inTemplate (analyzeAbsolutePosition B 4) = true
  /\ inTemplateExpression (analyzeAbsolutePosition B 4) = true
  /\ inTemplate (analyzeAbsolutePosition B 1) = true
  /\ inTemplateExpression (analyzeAbsolutePosition B 1) = false
  /\ inTemplate (analyzeAbsolutePosition B 6) = true
  /\ inTemplateExpression (analyzeAbsolutePosition B 6) = false.
Proof. repeat apply conj; vm_compute; reflexivity. Qed.

(** C4.  The cache is observable.  The buffers ['a] and [ab] have the same
    length; once the first has been classified at line 1, column 2 (offset
    1, inside the string), the same analyzer answers the same query on the
    second from the cache, with the context of the first, where the scan
    of the second says: not inside a string.  After [clearCache] the
    answer is the scan's. *)
Theorem cache_collision_on_equal_length :
  let B1 := js "'a" in
  let B2 := js "ab" in
  let context1 := analyzeAbsolutePosition B1 1 in
  let cache1 : gmap string LexicalContext := {[ "2-1"%string := context1 ]} in
  len B1 = len B2
  /\ getAbsolutePosition B2 1 2 = Normal 1
  /\ analyzePosition ∅ B1 1 2 = Normal (context1, cache1)
  /\ analyzePosition cache1 B2 1 2 = Normal (context1, cache1)
  /\ inString context1 = true
  /\ inString (analyzeAbsolutePosition B2 1) = false
  /\ analyzePosition (clearCache cache1) B2 1 2
     = Normal (analyzeAbsolutePosition B2 1,
               {[ "2-1"%string := analyzeAbsolutePosition B2 1 ]}).
Proof. repeat apply conj; vm_compute; reflexivity. Qed.

(** The gate of a fresh analyzer on the template literal
    [`//not a comment`], and the order of the vetoes.  At every offset
    inside the literal a fresh analyzer vetoes the position as template
    text, with a context that is not inside a comment.  On every context
    the verdict is the first that applies of: string literal, comment,
    regular expression literal, template text outside a substitution;
    and safe when none applies. *)
Lemma findSafeFixZone_fresh_veto_order (o : Z) (context : LexicalContext) :
  1 <= o <= 16 ->
  let B := js "`//not a comment`" in
  let inText := mkContext false false false true false (Some "`"%char) None in
  findSafeFixZone ∅ B 1 (o + 1)
  = Normal (SafeZone.mk false "Position is inside template literal text" inText,
            {[ cacheKey B o := inText ]})
  /\ (forall contextCache code line column,
        findSafeFixZone contextCache code line column
        = match analyzePosition contextCache code line column with
          | Normal (context, cache') => Normal (safeFixZoneOf context, cache')
          | Throw e => Throw e
          end)
  /\ let zone := safeFixZoneOf context in
     SafeZone.context zone = context
     /\ (inString context = true ->
         SafeZone.isSafe zone = false
         /\ SafeZone.reason zone
            = ("Position is inside a string literal ("
                 +:+ interpolate showChar (stringChar context) +:+ ")"))
     /\ (inString context = false -> inComment context = true ->
         SafeZone.isSafe zone = false
         /\ SafeZone.reason zone
            = ("Position is inside a "
                 +:+ interpolate showCommentType (commentType context)
                 +:+ " comment"))
     /\ (inString context = false -> inComment context = false ->
         inRegex context = true ->
         SafeZone.isSafe zone = false
         /\ SafeZone.reason zone
            = "Position is inside a regular expression literal"%string)
     /\ (inString context = false -> inComment context = false ->
         inRegex context = false ->
         inTemplate context = true -> inTemplateExpression context = false ->
         SafeZone.isSafe zone = false
         /\ SafeZone.reason zone
            = "Position is inside template literal text"%string)
     /\ (inString context = false -> inComment context = false ->
         inRegex context = false ->
         (inTemplate context && negb (inTemplateExpression context))%bool
         = false ->
         SafeZone.isSafe zone = true
         /\ SafeZone.reason zone
            = "Position is safe for modifications"%string).
Proof.
  intros Ho B inText. split; [|split].
  - assert (In o (map Z.of_nat (seq 1 16))) as Hin.
    { apply in_map_iff. exists (Z.to_nat o). split; [lia|].
      apply in_seq. lia. }
    cbn in Hin.
    repeat (destruct Hin as [<-|Hin]; [vm_compute; reflexivity|]).
    contradiction.
  - reflexivity.
  - unfold safeFixZoneOf.
    destruct context as [[] [] [] [] [] sc ct]; cbn;
      repeat (repeat apply conj; intros); try discriminate; reflexivity.
Qed.

(** C5.  The gate vetoes a position inside the template literal
    [`//not a comment`] as a comment.  The buffer [//aaaaaaaaaaaaaaa] has
    the length of the literal; once an analyzer has classified it at
    line 1, column 4 (inside its comment), the gate of that analyzer
    answers the query for the same position of the literal from the
    cache: the veto of a single-line comment, where the scan of the
    literal says template text and not comment, and where a fresh
    analyzer issues the veto of template text. *)
Theorem safe_zone_comment_veto_in_template :
  let A := js "//aaaaaaaaaaaaaaa" in
  let B := js "`//not a comment`" in
  let inLineComment :=
    mkContext false true false false false None (Some single) in
  let inText := mkContext false false false true false (Some "`"%char) None in
  let cache1 : gmap string LexicalContext :=
    {[ "17-3"%string := inLineComment ]} in
  analyzePosition ∅ A 1 4 = Normal (inLineComment, cache1)
  /\ reachableCache cache1
  /\ analyzeAbsolutePosition B 3 = inText
  /\ isInComment B 3 = false
  /\ findSafeFixZone ∅ B 1 4
     = Normal
         (SafeZone.mk false "Position is inside template literal text" inText,
          {[ "17-3"%string := inText ]})
  /\ findSafeFixZone cache1 B 1 4
     = Normal
         (SafeZone.mk false "Position is inside a single comment"
            inLineComment,
          cache1).
Proof.
  intros A B inLineComment inText cache1.
  assert (analyzePosition ∅ A 1 4 = Normal (inLineComment, cache1)) as Hfirst
    by (vm_compute; reflexivity).
  split; [exact Hfirst|].
  split; [exact (reachable_analyzePosition _ _ _ _ _ _ reachable_new Hfirst)|].
  repeat apply conj; vm_compute; reflexivity.
Qed.

(** C10.  No position of any buffer is classified as inside a regular
    expression literal: the scan never returns [inRegex = true],
    [isInRegex] is false everywhere, and on an analyzer whose cache was
    filled by its own calls [findSafeFixZone] never issues the veto of a
    regular expression literal. *)
Theorem inRegex_never_reported
  (contextCache : gmap string LexicalContext) (code : jsString)
  (position line column : Z) (zone : SafeZone.t)
  (cache' : gmap string LexicalContext) :
  reachableCache contextCache ->
  findSafeFixZone contextCache code line column = Normal (zone, cache') ->
  inRegex (analyzeAbsolutePosition code position) = false
  /\ isInRegex code position = false
  /\ inRegex (SafeZone.context zone) = false
  /\ SafeZone.reason zone
     <> "Position is inside a regular expression literal"%string.
Proof.
  intros Hreach Hzone.
  split; [apply inRegex_analyzeAbsolutePosition|].
  split; [apply inRegex_analyzeAbsolutePosition|].
  unfold findSafeFixZone in Hzone.
  destruct (analyzePosition contextCache code line column)
    as [[context cache'']|] eqn:Hcall; [|discriminate].
  injection Hzone as <- <-.
  pose proof (analyzePosition_inRegex _ _ _ _ _ _ Hreach Hcall) as Hre.
  unfold safeFixZoneOf. rewrite Hre.
  destruct (inString context), (inComment context),
    (inTemplate context && negb (inTemplateExpression context))%bool;
    cbn; (split; [exact Hre|]); try discriminate.
  all: destruct (commentType context) as [[]|]; cbn; discriminate.
Qed.

Lemma inRegex_never_reported_witness :
  reachableCache ∅
  /\ findSafeFixZone ∅ (js "return /ab/") 1 9
     = Normal (safeFixZoneOf defaultContext,
               {[ "11-8"%string := defaultContext ]})
  /\ inRegex (analyzeAbsolutePosition (js "return /ab/") 8) = false
  /\ SafeZone.reason (safeFixZoneOf defaultContext)
     <> "Position is inside a regular expression literal"%string.
Proof.
  assert (findSafeFixZone ∅ (js "return /ab/") 1 9
          = Normal (safeFixZoneOf defaultContext,
                    {[ "11-8"%string := defaultContext ]})) as Hzone
    by (vm_compute; reflexivity).
  split; [constructor|]. split; [exact Hzone|].
  pose proof (inRegex_never_reported ∅ (js "return /ab/") 8 1 9 _ _
                reachable_new Hzone) as H.
  destruct H as (H1 & _ & _ & H2). split; [exact H1|exact H2].
Defined.

(** ** The exported [safeReplace] *)

Section SafeReplace.

Variable newFunction : jsString -> option JsError.
Variable parse : jsString -> option string.

(** C3.  [safeReplace] is atomic.  Whatever the state of the shared cache,
    a result with [success = false] carries the original buffer, and a
    result with [success = true] carries the text before the offset, the
    replacement and the text from offset + length on, a buffer that
    [validateSyntax] accepts. *)
Theorem safeReplace_atomic (contextCache : gmap string LexicalContext)
  (code : jsString) (line column length : Z) (replacement : jsString) :
  let result :=
    fst (safeReplace newFunction parse contextCache code line column length
           replacement) in
  if ReplaceResult.success result
  then exists absolutePos,
      getAbsolutePosition code line column = Normal absolutePos
      /\ ReplaceResult.code result
         = substring code 0 absolutePos ++ replacement
             ++ substringFrom code (absolutePos + length)
      /\ ValidationResult.isValid
           (validateSyntax newFunction parse (ReplaceResult.code result))
         = true
  else ReplaceResult.code result = code.
Proof.
  unfold safeReplace.
  destruct (findSafeFixZone contextCache code line column)
    as [[safeZone cache']|error]; [|reflexivity].
  destruct (SafeZone.isSafe safeZone); [|reflexivity]. cbn [negb].
  destruct (getAbsolutePosition code line column) as [absolutePos|error];
    [|reflexivity].
  destruct (ValidationResult.isValid _) eqn:Hvalid; [|reflexivity].
  cbn. exists absolutePos. auto.
Qed.

(** An unsafe location, a failure to map the position and an invalid
    spliced text each give [success = false]. *)
Lemma safeReplace_unsafe (contextCache : gmap string LexicalContext)
  (code : jsString) (line column length : Z) (replacement : jsString)
  safeZone cache' :
  findSafeFixZone contextCache code line column = Normal (safeZone, cache') ->
  SafeZone.isSafe safeZone = false ->
  safeReplace newFunction parse contextCache code line column length
    replacement
  = (ReplaceResult.mk false code
       ("Cannot replace text: " +:+ SafeZone.reason safeZone)
       ["Position is not safe for modification"], cache').
Proof. intros Hzone Hunsafe. unfold safeReplace. rewrite Hzone, Hunsafe. reflexivity. Qed.

Lemma safeReplace_throw (contextCache : gmap string LexicalContext)
  (code : jsString) (line column length : Z) (replacement : jsString) error :
  getAbsolutePosition code line column = Throw error ->
  safeReplace newFunction parse contextCache code line column length
    replacement
  = (ReplaceResult.mk false code
       ("Error during replacement: " +:+ errorMessage error)
       ["Unexpected error occurred during text replacement"], contextCache).
Proof.
  intros Hthrow. unfold safeReplace, findSafeFixZone, analyzePosition.
  rewrite Hthrow. reflexivity.
Qed.

End SafeReplace.

(** ** [validateSyntax] *)

(** When the Function constructor rejects the buffer, [validateSyntax]
    returns from its [catch] block: one generic warning, and neither the
    bracket scan nor the parser has run. *)
Lemma validateSyntax_rejected
  (newFunction : jsString -> option JsError)
  (parse : jsString -> option string) (code : jsString) (error : JsError) :
  newFunction code = Some error ->
  validateSyntax newFunction parse code
  = ValidationResult.mk false
      (Some ("Syntax error: " +:+ errorMessage error))
      ["Code contains syntax errors that prevent execution"]
      (SyntaxFailure (errorMessage error) (errorName error)).
Proof. intros Hnf. unfold validateSyntax. rewrite Hnf. reflexivity. Qed.



(** C8.  A replacement span that runs past the end of the buffer is not
    refused.  On the buffer [a], at line 1, column 1 (offset 0, a safe
    location) with length 5, the exported [safeReplace] succeeds and
    returns the buffer [b] whenever the replacement [b] passes the syntax
    check; [FixerBase.safeReplace] throws on the same span. *)
Theorem safeReplace_span_past_end
  (newFunction : jsString -> option JsError)
  (parse : jsString -> option string) :
  newFunction (js "b") = None ->
  parse (js "b") = None ->
  len (js "a") < 0 + 5
  /\ getAbsolutePosition (js "a") 1 1 = Normal 0
  /\ fst (safeReplace newFunction parse ∅ (js "a") 1 1 5 (js "b"))
     = ReplaceResult.mk true (js "b") "Text replaced successfully" []
  /\ FixerBase.safeReplace (js "a") 0 5 (js "b")
     = Throw (Error "Invalid replacement bounds").
Proof.
  intros Hnf Hparse.
  split; [reflexivity|]. split; [vm_compute; reflexivity|].
  split; [|vm_compute; reflexivity].
  unfold safeReplace.
  replace (findSafeFixZone ∅ (js "a") 1 1)
    with (Normal (safeFixZoneOf defaultContext,
                  ({[ "1-0"%string := defaultContext ]}
                   : gmap string LexicalContext)))
    by (vm_compute; reflexivity).
  replace (getAbsolutePosition (js "a") 1 1) with (Normal 0)
    by (vm_compute; reflexivity).
  replace (substring (js "a") 0 0 ++ js "b" ++ substringFrom (js "a") (0 + 5))
    with (js "b") by (vm_compute; reflexivity).
  unfold validateSyntax, checkCommonSyntaxIssues.
  rewrite Hnf, Hparse. reflexivity.
Qed.

Lemma safeReplace_span_past_end_witness :
  (fun _ : jsString => @None JsError) (js "b") = None
  /\ (fun _ : jsString => @None string) (js "b") = None
  /\ fst (safeReplace (fun _ => None) (fun _ => None) ∅ (js "a") 1 1 5
            (js "b"))
     = ReplaceResult.mk true (js "b") "Text replaced successfully" [].
Proof.
  split; [reflexivity|]. split; [reflexivity|].
  pose proof (safeReplace_span_past_end (fun _ => None) (fun _ => None)
                eq_refl eq_refl) as H.
  destruct H as (_ & _ & H & _). exact H.
Defined.

(** ** The fix history *)

Lemma recordFixes_snoc (calls : list FixRecord) (r : FixRecord)
  (this : CodeValidator) :
  recordFixes (calls ++ [r]) this
  = recordFix (timestamp r) (ruleId r) (line r) (column r) (originalText r)
      (fixedText r) (recordFixes calls this).
Proof. unfold recordFixes. rewrite fold_left_app. reflexivity. Qed.

(** The history holds the records of the last hundred calls, oldest
    first. *)
Lemma fixHistory_recordFixes (calls : list FixRecord) :
  fixHistory (recordFixes calls newCodeValidator)
  = drop (length calls - 100) calls.
Proof.
  induction calls as [|r calls IH] using rev_ind; [reflexivity|].
  rewrite recordFixes_snoc. unfold recordFix. cbn [fixHistory].
  rewrite IH. destruct r as [rule l c orig fixed t]. cbn [timestamp ruleId
    line column originalText fixedText].
  set (r := mkFixRecord rule l c orig fixed t).
  rewrite !length_app, length_drop. cbn [length].
  destruct (Z.ltb_spec 100 (Z.of_nat (length calls - (length calls - 100) + 1)))
    as [Hfull|Hroom].
  - replace (length calls + 1 - 100)%nat with (S (length calls - 100)) by lia.
    rewrite (drop_app_le calls [r] (S (length calls - 100))) by lia.
    destruct (drop (length calls - 100) calls) as [|x rest] eqn:Hdrop.
    + apply (f_equal length) in Hdrop. rewrite length_drop in Hdrop.
      cbn in Hdrop. lia.
    + apply (f_equal (drop 1)) in Hdrop. rewrite drop_drop in Hdrop.
      cbn in Hdrop. rewrite Nat.add_1_r in Hdrop. rewrite Hdrop.
      reflexivity.
  - replace (length calls + 1 - 100)%nat with 0%nat by lia.
    replace (length calls - 100)%nat with 0%nat by lia.
    reflexivity.
Qed.

(** C9.  The fix history is a bounded first-in, first-out list.  After any
    sequence of [recordFix] calls on a new validator it holds at most 100
    records.  After 101 calls it holds the records of calls 2 to 101 in
    order: the record of the first call has been removed from the front
    (and, the records being distinct, occurs nowhere in the history) and
    the record of call 101 is the last one. *)
Theorem fix_history_bounded_fifo (calls calls101 : list FixRecord) :
  length calls101 = 101%nat ->
  (length (fixHistory (recordFixes calls newCodeValidator)) <= 100)%nat
  /\ let history := fixHistory (recordFixes calls101 newCodeValidator) in
     history = tail calls101
     /\ length history = 100%nat
     /\ last history = last calls101
     /\ (NoDup calls101 ->
         forall first, head calls101 = Some first -> first ∉ history).
Proof.
  intros H101. split.
  - rewrite fixHistory_recordFixes, length_drop. lia.
  - cbv zeta. rewrite fixHistory_recordFixes, H101.
    destruct calls101 as [|first rest]; [discriminate|].
    cbn in H101. injection H101 as Hrest.
    change (drop (101 - 100) (first :: rest)) with rest. cbn [tail].
    repeat apply conj.
    + reflexivity.
    + exact Hrest.
    + destruct rest; [discriminate|]. reflexivity.
    + intros Hnodup first' [= <-]. apply NoDup_cons in Hnodup as [Hnotin _].
      exact Hnotin.
Qed.

Lemma fix_history_bounded_fifo_witness :
  let calls101 :=
    map (fun n => mkFixRecord (js "semi") (Z.of_nat n) 1 [] (js ";")
                    (Z.of_nat n))
      (seq 1 101) in
  length calls101 = 101%nat
  /\ fixHistory (recordFixes calls101 newCodeValidator) = tail calls101.
Proof.
  intros calls101. split; [reflexivity|].
  pose proof (fix_history_bounded_fifo [] calls101 eq_refl) as H.
  destruct H as (_ & H & _). exact H.
Defined.

(** * Further properties *)

Lemma item_nat {A} (l : list A) (n : nat) : l.[Z.of_nat n] = l !! n.
Proof.
  unfold item. destruct (Z.ltb_spec (Z.of_nat n) 0); [lia|].
  rewrite Nat2Z.id. reflexivity.
Qed.

Lemma item_nonneg {A} (l : list A) (i : Z) :
  0 <= i -> l.[i] = l !! Z.to_nat i.
Proof.
  intros Hi. unfold item. destruct (Z.ltb_spec i 0); [lia|reflexivity].
Qed.

Lemma split_newline_nonempty (code : jsString) : split_newline code <> [].
Proof.
  destruct code as [|u rest].
  - cbn. discriminate.
  - cbn. destruct (N.eqb _ _); [discriminate|].
    destruct (split_newline rest); discriminate.
Qed.

(** The lines of a text, with the one its last character starts. *)
Lemma split_newline_cons (u : N) (rest : jsString) :
  split_newline (u :: rest) =
  if N.eqb u (chr "010") then [] :: split_newline rest
  else match split_newline rest with
       | l :: ls => (u :: l) :: ls
       | [] => [[u]]
       end.
Proof. reflexivity. Qed.

Lemma join_newline_cons (l : jsString) (ls : list jsString) :
  ls <> [] -> join_newline (l :: ls) = l ++ chr "010" :: join_newline ls.
Proof. destruct ls; [contradiction|reflexivity]. Qed.

(** [split] then [join] gives the text back. *)
Lemma join_split_newline (code : jsString) :
  join_newline (split_newline code) = code.
Proof.
  induction code as [|u rest IH]; [reflexivity|].
  rewrite split_newline_cons.
  destruct (N.eqb_spec u (chr "010")) as [->|Hne].
  - rewrite join_newline_cons by apply split_newline_nonempty.
    rewrite IH. reflexivity.
  - pose proof (split_newline_nonempty rest) as Hne'.
    destruct (split_newline rest) as [|l ls]; [contradiction|].
    destruct ls as [|l' ls].
    + cbn in *. rewrite IH. reflexivity.
    + rewrite join_newline_cons in * by discriminate.
      cbn. rewrite <- IH. reflexivity.
Qed.

Lemma split_newline_free (code : jsString) :
  Forall newline_free (split_newline code).
Proof.
  induction code as [|u rest IH].
  - repeat constructor. unfold newline_free. apply not_elem_of_nil.
  - rewrite split_newline_cons.
    destruct (N.eqb_spec u (chr "010")) as [->|Hne].
    + constructor; [apply not_elem_of_nil|exact IH].
    + destruct (split_newline rest) as [|l ls].
      * repeat constructor. unfold newline_free.
        rewrite list_elem_of_singleton. congruence.
      * inversion IH as [|? ? Hl Hls]; subst. constructor; [|exact Hls].
        unfold newline_free in *. rewrite elem_of_cons. intros [?|?]; auto.
Qed.

(** [join] then [split] gives the lines back, when no line holds a
    newline and there is at least one line. *)
Lemma split_join_newline (lines : list jsString) :
  lines <> [] -> Forall newline_free lines ->
  split_newline (join_newline lines) = lines.
Proof.
  induction lines as [|l ls IH]; [contradiction|].
  intros _ Hfree. inversion Hfree as [|? ? Hl Hls]; subst.
  destruct ls as [|l' ls].
  - cbn. clear IH Hfree Hls. induction l as [|u l IHl]; [reflexivity|].
    rewrite split_newline_cons.
    unfold newline_free in Hl. rewrite not_elem_of_cons in Hl.
    destruct Hl as [Hu Hl].
    destruct (N.eqb_spec u (chr "010")); [congruence|].
    rewrite (IHl Hl). reflexivity.
  - rewrite join_newline_cons by discriminate.
    specialize (IH ltac:(discriminate) Hls).
    clear Hfree. induction l as [|u l IHl].
    + cbn [app]. rewrite split_newline_cons.
      replace (N.eqb (chr "010") (chr "010")) with true by reflexivity.
      rewrite IH. reflexivity.
    + unfold newline_free in Hl. rewrite not_elem_of_cons in Hl.
      destruct Hl as [Hu Hl].
      change ((u :: l) ++ chr "010" :: join_newline (l' :: ls))
        with (u :: (l ++ chr "010" :: join_newline (l' :: ls))).
      rewrite split_newline_cons.
      destruct (N.eqb_spec u (chr "010")); [congruence|].
      rewrite (IHl Hl). reflexivity.
Qed.

Lemma getAbsolutePosition_loop_spec (n : nat) :
  forall (lines : list jsString) (line i position : Z),
    0 <= i -> (Z.to_nat i <= length lines)%nat ->
    Z.to_nat (line - 1 - i) = n ->
    getAbsolutePosition_loop lines line i position =
    if decide (Z.to_nat i + n <= length lines)%nat
    then Normal (position + lineStart (drop (Z.to_nat i) lines) n)
    else Throw (TypeError undefinedLengthMessage).
Proof.
  induction n as [|n IH]; intros lines line i position Hi Hlen Hn.
  - rewrite getAbsolutePosition_loop_step.
    destruct (Z.ltb_spec i (line - 1)); [lia|].
    rewrite decide_True by lia. f_equal. cbn [lineStart]. lia.
  - rewrite getAbsolutePosition_loop_step.
    destruct (Z.ltb_spec i (line - 1)); [|lia].
    rewrite item_nonneg by lia.
    destruct (lines !! Z.to_nat i) as [l|] eqn:Hl.
    + pose proof (lookup_lt_Some _ _ _ Hl) as Hlt.
      rewrite (IH lines line (i + 1)) by lia.
      replace (Z.to_nat (i + 1)) with (S (Z.to_nat i)) by lia.
      rewrite (drop_S _ _ _ Hl). cbn [lineStart].
      destruct (decide (S (Z.to_nat i) + n <= length lines)%nat);
        [rewrite decide_True by lia|rewrite decide_False by lia].
      * f_equal. lia.
      * reflexivity.
    + apply lookup_ge_None in Hl. rewrite decide_False by lia. reflexivity.
Qed.

(** [getAbsolutePosition] in closed form. *)
Lemma getAbsolutePosition_spec (code : jsString) (line column : Z) :
  getAbsolutePosition code line column =
  if line - 1 <=? count (split_newline code)
  then Normal (lineStart (split_newline code) (Z.to_nat (line - 1))
               + column - 1)
  else Throw (TypeError undefinedLengthMessage).
Proof.
  unfold getAbsolutePosition.
  rewrite (getAbsolutePosition_loop_spec (Z.to_nat (line - 1)))
    by (cbn; lia).
  cbn [Z.to_nat drop]. unfold count.
  destruct (Z.leb_spec (line - 1) (Z.of_nat (length (split_newline code)))).
  - rewrite decide_True by lia. f_equal.
  - rewrite decide_False by lia. reflexivity.
Qed.

Lemma len_app (a b : jsString) : len (a ++ b) = len a + len b.
Proof. unfold len. rewrite length_app. lia. Qed.

Lemma len_nonneg (a : jsString) : 0 <= len a.
Proof. unfold len. lia. Qed.

Lemma substring_prefix (code : jsString) (i : Z) :
  0 <= i <= len code -> substring code 0 i = take (Z.to_nat i) code.
Proof.
  intros Hi. unfold substring, clamp.
  pose proof (len_nonneg code).
  replace (Z.min (Z.max 0 0) (len code)) with 0 by lia.
  replace (Z.min (Z.max i 0) (len code)) with i by lia.
  replace (Z.min 0 i) with 0 by lia. replace (Z.max 0 i) with i by lia.
  rewrite Z.sub_0_r. reflexivity.
Qed.

Lemma split_newline_app (P R : jsString) :
  forall ls l hd tl,
    split_newline P = ls ++ [l] -> split_newline R = hd :: tl ->
    split_newline (P ++ R) = ls ++ (l ++ hd) :: tl.
Proof.
  induction P as [|u P IH]; intros ls l hd tl HP HR.
  - cbn in HP. destruct ls as [|x ls]; [|destruct ls; discriminate].
    injection HP as <-. exact HR.
  - change ((u :: P) ++ R) with (u :: (P ++ R)).
    rewrite split_newline_cons in *.
    destruct (N.eqb u (chr "010")).
    + destruct ls as [|x ls].
      * exfalso. injection HP as _ HP. exact (split_newline_nonempty _ HP).
      * injection HP as <- HP. rewrite (IH _ _ _ _ HP HR). reflexivity.
    + pose proof (split_newline_nonempty P) as Hne.
      destruct (split_newline P) as [|l0 ls0] eqn:HsP; [contradiction|].
      destruct ls as [|x ls].
      * injection HP as <- ->.
        rewrite (IH [] l0 hd tl eq_refl HR). reflexivity.
      * injection HP as <- ->.
        rewrite (IH (l0 :: ls) l hd tl eq_refl HR). reflexivity.
Qed.

Lemma lineStart_app (ls rest : list jsString) :
  lineStart (ls ++ rest) (length ls) = lineStart ls (length ls).
Proof. induction ls as [|x ls IH]; [destruct rest; reflexivity|cbn; lia]. Qed.

Lemma len_join_newline (ls : list jsString) (l : jsString) :
  len (join_newline (ls ++ [l])) = lineStart ls (length ls) + len l.
Proof.
  induction ls as [|x ls IH]; [cbn; lia|].
  change ((x :: ls) ++ [l]) with (x :: (ls ++ [l])).
  rewrite join_newline_cons by (destruct ls; discriminate).
  rewrite len_app. cbn [lineStart length].
  change (chr "010" :: join_newline (ls ++ [l]))
    with ([chr "010"] ++ join_newline (ls ++ [l])).
  rewrite len_app, IH. unfold len. cbn [length]. lia.
Qed.

Lemma split_last (code : jsString) :
  exists ls l, split_newline code = ls ++ [l].
Proof.
  pose proof (split_newline_nonempty code) as Hne.
  destruct (split_newline code) as [|x xs] using rev_ind; [contradiction|].
  eauto.
Qed.

(** The line and column computed from the prefix of an offset. *)
Lemma lineColumnAt_spec (code : jsString) (i : Z) (ls : list jsString)
  (l : jsString) :
  split_newline (substring code 0 i) = ls ++ [l] ->
  lineColumnAt code i = (count ls + 1, len l + 1).
Proof.
  intros Hsplit. unfold lineColumnAt. rewrite Hsplit.
  unfold count. rewrite length_app. cbn [length].
  replace (Z.of_nat (length ls + 1) - 1) with (Z.of_nat (length ls)) by lia.
  rewrite item_nat, lookup_app_r, Nat.sub_diag by lia. cbn.
  f_equal. lia.
Qed.

Lemma lineColumnAt_getAbsolutePosition (code : jsString) (i : Z) :
  0 <= i <= len code ->
  getAbsolutePosition code (fst (lineColumnAt code i))
    (snd (lineColumnAt code i)) = Normal i
  /\ isValidPosition code (fst (lineColumnAt code i))
       (snd (lineColumnAt code i)) = true.
Proof.
  intros Hi.
  destruct (split_last (substring code 0 i)) as (ls & l & Hsplit).
  rewrite (lineColumnAt_spec _ _ _ _ Hsplit). cbn [fst snd].
  rewrite substring_prefix in Hsplit by exact Hi.
  destruct (split_newline (drop (Z.to_nat i) code)) as [|hd tl] eqn:Hrest;
    [destruct (split_newline_nonempty _ Hrest)|].
  pose proof (split_newline_app _ _ _ _ _ _ Hsplit Hrest) as Hcode.
  rewrite take_drop in Hcode.
  assert (len (take (Z.to_nat i) code) = i) as Hlen.
  { unfold len in *. rewrite length_take. lia. }
  rewrite <- (join_split_newline (take (Z.to_nat i) code)), Hsplit,
    len_join_newline in Hlen.
  split.
  - rewrite getAbsolutePosition_spec, Hcode. unfold count.
    rewrite length_app. cbn [length].
    destruct (Z.leb_spec (Z.of_nat (length ls) + 1 - 1)
                (Z.of_nat (length ls + S (length tl)))); [|lia].
    replace (Z.to_nat (Z.of_nat (length ls) + 1 - 1)) with (length ls) by lia.
    rewrite lineStart_app. f_equal. lia.
  - unfold isValidPosition. rewrite Hcode. unfold count.
    rewrite length_app. cbn [length].
    destruct (Z.ltb_spec (Z.of_nat (length ls) + 1) 1); [lia|].
    destruct (Z.ltb_spec (Z.of_nat (length ls + S (length tl)))
                (Z.of_nat (length ls) + 1)); [lia|].
    cbn [orb].
    replace (Z.of_nat (length ls) + 1 - 1) with (Z.of_nat (length ls)) by lia.
    rewrite item_nat, lookup_app_r, Nat.sub_diag by lia. cbn [lookup].
    cbn. rewrite len_app.
    pose proof (len_nonneg l). pose proof (len_nonneg hd).
    destruct (Z.ltb_spec (len l + 1) 1); [lia|].
    destruct (Z.ltb_spec (len l + len hd + 1) (len l + 1)); [lia|].
    reflexivity.
Qed.

Lemma join_newline_split_at (before : list jsString) (a b : jsString)
  (after : list jsString) :
  join_newline (before ++ (a ++ b) :: after) =
  join_newline (before ++ [a]) ++ b
    ++ match after with
       | [] => []
       | _ :: _ => chr "010" :: join_newline after
       end.
Proof.
  induction before as [|x before IH].
  - destruct after as [|y after]; cbn -[chr].
    + rewrite app_nil_r. reflexivity.
    + rewrite <- app_assoc. reflexivity.
  - change ((x :: before) ++ (a ++ b) :: after)
      with (x :: (before ++ (a ++ b) :: after)).
    change ((x :: before) ++ [a]) with (x :: (before ++ [a])).
    rewrite !join_newline_cons by (destruct before; discriminate).
    rewrite IH, <- app_assoc. reflexivity.
Qed.

Lemma newline_free_take (n : nat) (l : jsString) :
  newline_free l -> newline_free (take n l).
Proof.
  unfold newline_free. intros Hl Hin. apply Hl.
  rewrite <- (take_drop n l). apply elem_of_app. auto.
Qed.

(** X2.  A position that [FixerBase.isValidPosition] accepts is mapped by
    [getAbsolutePosition] to an offset inside the buffer (the end
    included), without a throw, and the line and column computed from
    that offset are the position again. *)
Theorem valid_position_round_trip (code : jsString) (line column : Z) :
  isValidPosition code line column = true ->
  exists p,
    getAbsolutePosition code line column = Normal p
    /\ 0 <= p <= len code
    /\ lineColumnAt code p = (line, column).
Proof.
  unfold isValidPosition.
  destruct (Z.ltb_spec line 1) as [|Hline1]; [discriminate|].
  destruct (Z.ltb_spec (count (split_newline code)) line) as [|Hline2];
    [discriminate|].
  cbn [orb]. rewrite item_nonneg by lia.
  destruct (split_newline code !! Z.to_nat (line - 1)) as [target|] eqn:Ht;
    [|discriminate].
  destruct (Z.ltb_spec column 1) as [|Hcol1]; [discriminate|].
  destruct (Z.ltb_spec (len target + 1) column) as [|Hcol2]; [discriminate|].
  intros _.
  pose proof (take_drop_middle _ _ _ Ht) as Hlines.
  set (before := take (Z.to_nat (line - 1)) (split_newline code)) in *.
  set (after := drop (S (Z.to_nat (line - 1))) (split_newline code)) in *.
  assert (length before = Z.to_nat (line - 1)) as Hbefore.
  { unfold before. rewrite length_take.
    pose proof (lookup_lt_Some _ _ _ Ht). lia. }
  set (a := take (Z.to_nat (column - 1)) target).
  set (b := drop (Z.to_nat (column - 1)) target).
  assert (len a = column - 1) as Ha.
  { unfold a, len in *. rewrite length_take. lia. }
  pose proof (join_split_newline code) as Hjoin.
  rewrite <- Hlines, <- (take_drop (Z.to_nat (column - 1)) target) in Hjoin.
  fold a b in Hjoin. rewrite join_newline_split_at in Hjoin.
  set (Q := join_newline (before ++ [a])) in *.
  assert (len Q = lineStart before (length before) + len a) as HQ
    by apply len_join_newline.
  set (rest := b ++ match after with
                   | [] => []
                   | _ :: _ => chr "010" :: join_newline after
                   end) in *.
  pose proof (f_equal len Hjoin) as Hlen. rewrite len_app in Hlen.
  pose proof (len_nonneg Q). pose proof (len_nonneg rest).
  exists (len Q). split; [|split].
  - rewrite getAbsolutePosition_spec.
    destruct (Z.leb_spec (line - 1) (count (split_newline code))); [|lia].
    f_equal. rewrite <- Hlines at 1. rewrite <- Hbefore, lineStart_app. lia.
  - lia.
  - assert (split_newline (substring code 0 (len Q)) = before ++ [a])
      as Hsplit.
    { rewrite substring_prefix by lia.
      rewrite <- Hjoin. unfold len. rewrite Nat2Z.id.
      rewrite take_app_length. apply split_join_newline.
      - destruct before; discriminate.
      - pose proof (split_newline_free code) as Hfree.
        rewrite <- Hlines in Hfree.
        apply Forall_app in Hfree as [Hb Hfree].
        inversion Hfree as [|? ? Htarget _]. apply Forall_app.
        split; [exact Hb|].
        constructor; [|constructor]. apply newline_free_take, Htarget. }
    rewrite (lineColumnAt_spec _ _ _ _ Hsplit). unfold count.
    f_equal; lia.
Qed.

Lemma substring_range (code : jsString) (a b : Z) :
  0 <= a <= b -> b <= len code ->
  substring code a b = take (Z.to_nat (b - a)) (drop (Z.to_nat a) code).
Proof.
  intros Ha Hb. unfold substring, clamp.
  replace (Z.min (Z.max a 0) (len code)) with a by lia.
  replace (Z.min (Z.max b 0) (len code)) with b by lia.
  replace (Z.min a b) with a by lia. replace (Z.max a b) with b by lia.
  reflexivity.
Qed.

Lemma substringFrom_drop (code : jsString) (a : Z) :
  0 <= a <= len code -> substringFrom code a = drop (Z.to_nat a) code.
Proof.
  intros Ha. unfold substringFrom. rewrite substring_range by lia.
  apply take_ge. rewrite length_drop. unfold len in *. lia.
Qed.

Section ScanInvariant.
Import Scan Scan_loop.

Ltac flags s :=
  destruct s as [i0 [] [] [] [] [] re depth rc];
  cbn [inSingleQuote inDoubleQuote inTemplate inSingleComment inMultiComment
       inRegex regexContext templateDepth i] in *.

Ltac open_inv H :=
  unfold scanInvariant in H;
  cbn [inSingleQuote inDoubleQuote inTemplate inSingleComment inMultiComment
       inRegex regexContext templateDepth i] in H;
  destruct H as (-> & -> & Hone & Hdepth);
  try discriminate Hone.

Ltac close_inv :=
  unfold scanInvariant;
  cbn [inSingleQuote inDoubleQuote inTemplate inSingleComment inMultiComment
       inRegex regexContext templateDepth i
       advance set_inSingleQuote set_inDoubleQuote set_inTemplate
       set_inSingleComment set_inMultiComment set_inRegex set_templateDepth
       negb];
  repeat apply conj; try reflexivity; try assumption; try lia.

Lemma scanInvariant_advance k s :
  scanInvariant s -> scanInvariant (advance k s).
Proof. intros H. exact H. Qed.

Lemma scanInvariant_endSingleComment char s :
  scanInvariant s -> scanInvariant (endSingleComment char s).
Proof.
  intros H. unfold endSingleComment. flags s; open_inv H;
    cbn [andb]; try case_if; close_inv.
Qed.

(** Outside a regular expression the two statements on regular
    expressions leave the variables as they are. *)
Lemma endRegex_handleRegex_id (code : jsString) (s : locals) :
  inRegex s = false -> regexContext s = false ->
  endRegex code code.[i s] (handleRegex code code.[i s] s) = s.
Proof.
  intros Hre Hrc. unfold handleRegex.
  destruct (negb (inSingleQuote s) && negb (inDoubleQuote s)
            && negb (inTemplate s) && charIs code.[i s] "/")%bool eqn:Hcond.
  - destruct (couldBeRegexStart code (i s)) eqn:Hstart.
    + apply andb_prop in Hcond as [_ Hslash].
      unfold endRegex. cbn [set_inRegex inRegex i].
      rewrite Hslash, (couldBeRegexStart_not_escaped _ _ Hstart).
      destruct s; cbn in *. subst. reflexivity.
    + unfold endRegex. rewrite Hre. reflexivity.
  - unfold endRegex. rewrite Hre. reflexivity.
Qed.


Ltac open_code H :=
  destruct H as (H & Hsc & Hmc);
  cbn [inSingleComment inMultiComment] in Hsc, Hmc;
  try discriminate Hsc; try discriminate Hmc;
  open_inv H.

Ltac close_code :=
  unfold codeInvariant;
  cbn [inSingleComment inMultiComment
       advance set_inSingleQuote set_inDoubleQuote set_inTemplate
       set_inSingleComment set_inMultiComment set_inRegex set_templateDepth];
  (split; [close_inv|split; reflexivity]).

Lemma codeInvariant_singleQuotes char s :
  codeInvariant s -> codeInvariant (singleQuotes char s).
Proof.
  intros H. unfold singleQuotes. flags s; open_code H;
    cbn [andb negb]; try case_if; close_code.
Qed.

Lemma codeInvariant_doubleQuotes char s :
  codeInvariant s -> codeInvariant (doubleQuotes char s).
Proof.
  intros H. unfold doubleQuotes. flags s; open_code H;
    cbn [andb negb]; try case_if; close_code.
Qed.

Lemma codeInvariant_templateLiterals char s :
  codeInvariant s -> codeInvariant (templateLiterals char s).
Proof.
  intros H. unfold templateLiterals. flags s; open_code H;
    cbn [andb negb set_templateDepth templateDepth]; repeat case_if;
    close_code;
    repeat match goal with
           | E : (_ =? _) = true |- _ => apply Z.eqb_eq in E
           | E : (_ =? _) = false |- _ => apply Z.eqb_neq in E
           end; lia.
Qed.

Lemma codeInvariant_closeExpression char s :
  codeInvariant s -> codeInvariant (closeExpression char s).
Proof.
  intros H. unfold closeExpression. flags s; open_code H;
    cbn [andb negb]; try case_if; close_code;
    apply andb_prop in Heqb as [_ ?%Z.ltb_lt]; lia.
Qed.

Lemma scanInvariant_codeBody (code : jsString) (nextChar : option N)
  (s : locals) :
  codeInvariant s -> scanInvariant (codeBody code code.[i s] nextChar s).
Proof.
  intros H. unfold codeBody.
  rewrite endRegex_handleRegex_id by apply H.
  destruct (inRegex s); [apply H|].
  pose proof (codeInvariant_templateLiterals code.[i s] _
                (codeInvariant_doubleQuotes code.[i s] _
                   (codeInvariant_singleQuotes code.[i s] _ H))) as H3.
  set (s3 := templateLiterals _ _) in *.
  case_if.
  - apply andb_prop in Heqb as [[Ht _]%andb_prop _].
    destruct H3 as [H3 _]. clear -H3 Ht. flags s3; open_inv H3;
      try discriminate Ht; close_inv.
  - apply (codeInvariant_closeExpression code.[i s] s3 H3).
Qed.

Lemma scanInvariant_body (code : jsString) (s : locals) :
  scanInvariant s -> scanInvariant (body code s).
Proof.
  intros H. unfold body.
  case_if; [exact H|].
  case_if.
  { clear Heqb. repeat (apply andb_prop in Heqb0 as [Heqb0 ?]).
    clear H0. flags s; open_inv H; try discriminate; close_inv. }
  pose proof (scanInvariant_endSingleComment code.[i s] s H) as H1.
  pose proof (i_endSingleComment code.[i s] s) as Hi.
  set (s1 := endSingleComment _ _) in *.
  case_if.
  { clear -H1 Heqb1. repeat (apply andb_prop in Heqb1 as [Heqb1 ?]).
    clear H. flags s1; open_inv H1; try discriminate; close_inv. }
  case_if.
  { clear -H1 Heqb2. apply andb_prop in Heqb2 as [[Hmc _]%andb_prop _].
    flags s1; open_inv H1; try discriminate; close_inv. }
  case_if; [exact H1|].
  rewrite <- Hi. apply scanInvariant_codeBody.
  apply orb_false_elim in Heqb3 as [Hsc Hmc].
  split; [exact H1|split; assumption].
Qed.

Lemma scanInvariant_loop (code : jsString) (position : Z) (s : locals) :
  scanInvariant s -> scanInvariant (loop code position s).
Proof.
  apply (loop_invariant scanInvariant). intros s' _.
  apply scanInvariant_body.
Qed.

End ScanInvariant.

Lemma analyzeAbsolutePosition_possible (code : jsString) (position : Z) :
  In (analyzeAbsolutePosition code position) possibleContexts.
Proof.
  pose proof (scanInvariant_loop code position Scan.initial) as H.
  unfold analyzeAbsolutePosition.
  set (s := Scan_loop.loop code position Scan.initial) in *.
  assert (scanInvariant Scan.initial) as H0 by (repeat split).
  specialize (H H0). clear H0.
  destruct s as [i0 [] [] [] [] [] re depth rc];
    unfold scanInvariant in H;
    cbn [Scan.inSingleQuote Scan.inDoubleQuote Scan.inTemplate
         Scan.inSingleComment Scan.inMultiComment Scan.inRegex
         Scan.regexContext Scan.templateDepth Scan.i] in *;
    destruct H as (-> & -> & Hone & Hdepth); try discriminate Hone;
    cbn [orb andb]; try destruct (1 <? depth); cbn; auto 10.
Qed.

Section Locality.
Import Scan Scan_loop.

Lemma codeBody_same_chars (code1 code2 : jsString) (nextChar : option N)
  (s : locals) :
  inRegex s = false -> regexContext s = false ->
  code1.[i s] = code2.[i s] ->
  codeBody code1 code1.[i s] nextChar s = codeBody code2 code2.[i s] nextChar s.
Proof.
  intros Hre Hrc Hchar. unfold codeBody.
  rewrite !endRegex_handleRegex_id by assumption.
  rewrite Hchar. reflexivity.
Qed.

(** One pass of the loop reads the buffer at [i] and [i + 1] only. *)
Lemma body_same_chars (code1 code2 : jsString) (s : locals) :
  scanInvariant s ->
  code1.[i s] = code2.[i s] -> code1.[i s + 1] = code2.[i s + 1] ->
  body code1 s = body code2 s.
Proof.
  intros H Hchar Hnext. unfold body. rewrite <- Hchar, <- Hnext.
  repeat case_if; try reflexivity.
  pose proof (scanInvariant_endSingleComment code1.[i s] s H) as H1.
  pose proof (i_endSingleComment code1.[i s] s) as Hi.
  set (s1 := endSingleComment _ _) in *.
  rewrite <- Hi in Hchar |- *. rewrite Hchar at 2.
  apply codeBody_same_chars; [apply H1|apply H1|exact Hchar].
Qed.

Lemma item_take {A} (l : list A) (n : nat) (k : Z) :
  k < Z.of_nat n -> (take n l).[k] = l.[k].
Proof.
  intros Hk. unfold item. destruct (Z.ltb_spec k 0); [reflexivity|].
  apply lookup_take_lt. lia.
Qed.

Lemma loop_same_prefix (code code2 : jsString) (position : Z) (s : locals) :
  position <= len code -> position <= len code2 ->
  (forall k, k <= position -> code.[k] = code2.[k]) ->
  scanInvariant s ->
  loop code position s = loop code2 position s.
Proof.
  intros H1 H2 Hsame.
  funelim (loop code position s); intros Hinv;
    rewrite (loop_step code2 position s).
  - pose proof e as He. unfold running in He |- *.
    apply andb_prop in He as [Hlt%Z.ltb_lt _].
    destruct (Z.ltb_spec (i s) position); [|lia].
    destruct (Z.ltb_spec (i s) (len code2)); [|lia]. cbn [andb].
    rewrite <- (body_same_chars code code2 s Hinv) by (apply Hsame; lia).
    apply H; auto. apply scanInvariant_body, Hinv.
  - pose proof e as He. unfold running in He |- *.
    destruct (Z.ltb_spec (i s) position); [|reflexivity].
    destruct (Z.ltb_spec (i s) (len code)); [discriminate|lia].
Qed.

End Locality.

(** X5.  The classification of an offset depends on the buffer up to the
    character at the offset only: two buffers that share a prefix longer
    than the offset are classified alike there. *)
Theorem scan_ignores_text_after_offset (prefix rest1 rest2 : jsString)
  (position : Z) :
  position < len prefix ->
  analyzeAbsolutePosition (prefix ++ rest1) position
  = analyzeAbsolutePosition (prefix ++ rest2) position.
Proof.
  intros Hlt. unfold analyzeAbsolutePosition.
  rewrite (loop_same_prefix (prefix ++ rest1) (prefix ++ rest2)); try reflexivity.
  - rewrite len_app. pose proof (len_nonneg rest1). lia.
  - rewrite len_app. pose proof (len_nonneg rest2). lia.
  - intros k Hk. unfold item. destruct (k <? 0) eqn:Hneg; [reflexivity|].
    apply Z.ltb_ge in Hneg. unfold len in Hlt.
    rewrite !lookup_app_l by lia. reflexivity.
  - repeat split.
Qed.

(** ** The cache key *)

Lemma noDash_app (s t : string) : noDash s -> noDash t -> noDash (s +:+ t).
Proof.
  induction s as [|a s IH]; cbn; [auto|]. intros [? ?] ?. split; auto.
Qed.

Lemma string_app_assoc (s t u : string) : (s +:+ t) +:+ u = s +:+ t +:+ u.
Proof.
  induction s as [|a s IH]; [reflexivity|].
  change (String a ((s +:+ t) +:+ u) = String a (s +:+ t +:+ u)).
  rewrite IH. reflexivity.
Qed.

Lemma pretty_N_char_noDash (x : N) : pretty_N_char x <> "-"%char.
Proof. unfold pretty_N_char. repeat case_match; discriminate. Qed.

Lemma pretty_N_go_noDash (x : N) :
  forall s, exists d, pretty_N_go x s = d +:+ s /\ noDash d.
Proof.
  induction (N.lt_wf_0 x) as [x _ IH]. intros s.
  destruct (N.eq_dec x 0%N) as [->|Hx].
  - exists EmptyString. split; [reflexivity|exact I].
  - rewrite pretty_N_go_step by lia.
    destruct (IH (x `div` 10)%N ltac:(apply N.div_lt; lia)
                (String (pretty_N_char (x `mod` 10)) s)) as (d & -> & Hd).
    exists (d +:+ String (pretty_N_char (x `mod` 10)) EmptyString).
    split.
    + rewrite string_app_assoc. reflexivity.
    + apply noDash_app; [exact Hd|].
      split; [apply pretty_N_char_noDash|exact I].
Qed.

Lemma pretty_nonneg_noDash (z : Z) : 0 <= z -> noDash (pretty z).
Proof.
  intros Hz. destruct z as [|p|p]; [cbn; split; [discriminate|exact I]| |lia].
  unfold pretty, pretty_Z, pretty, pretty_positive, pretty, pretty_N.
  destruct (decide (N.pos p = 0%N)); [discriminate|].
  destruct (pretty_N_go_noDash (N.pos p) EmptyString) as (d & -> & Hd).
  apply noDash_app; [exact Hd|exact I].
Qed.

Lemma split_at_dash (d1 d2 r1 r2 : string) :
  noDash d1 -> noDash d2 ->
  d1 +:+ String "-" r1 = d2 +:+ String "-" r2 -> d1 = d2 /\ r1 = r2.
Proof.
  revert d2. induction d1 as [|a d1 IH]; intros [|b d2]; cbn.
  - intros _ _ [= ->]. auto.
  - intros _ [Hb _] [= <- _]. contradiction.
  - intros [Ha _] _ [= -> _]. contradiction.
  - intros [_ H1] [_ H2] [= -> Heq].
    destruct (IH d2 H1 H2 Heq) as [-> ->]. auto.
Qed.

(** The key tells the length of the buffer and the offset, and nothing
    else of the buffer. *)
Lemma cacheKey_inj (code1 code2 : jsString) (p1 p2 : Z) :
  cacheKey code1 p1 = cacheKey code2 p2 <->
  len code1 = len code2 /\ p1 = p2.
Proof.
  split.
  - unfold cacheKey. intros Hkey.
    apply split_at_dash in Hkey as [Hlen Hpos];
      try (apply pretty_nonneg_noDash, len_nonneg).
    split; [exact (pretty_Z_inj _ _ Hlen)|exact (pretty_Z_inj _ _ Hpos)].
  - unfold cacheKey. intros [-> ->]. reflexivity.
Qed.

(** ** Calls of [analyzePosition] *)

(** X7.  A query that is repeated on the same analyzer is answered as
    before, and leaves the cache as it is. *)
Theorem analyzePosition_repeat (contextCache : gmap string LexicalContext)
  (code : jsString) (line column : Z) (context : LexicalContext)
  (cache' : gmap string LexicalContext) :
  analyzePosition contextCache code line column = Normal (context, cache') ->
  analyzePosition cache' code line column = Normal (context, cache').
Proof.
  unfold analyzePosition.
  destruct (getAbsolutePosition code line column) as [absolutePos|];
    [|discriminate].
  destruct (contextCache !! cacheKey code absolutePos) as [hit|] eqn:Hhit.
  - intros [= <- <-]. rewrite Hhit. reflexivity.
  - intros [= <- <-]. rewrite lookup_insert_eq. reflexivity.
Qed.

(** X8.  As long as no two distinct buffers of the same length are
    analysed through an analyzer (since it was constructed or cleared),
    every answer of [analyzePosition] is the result of the direct scan,
    and this remains so after the call. *)
Theorem analyzePosition_coherent (buffers : jsString -> Prop)
  (contextCache : gmap string LexicalContext)
  (code : jsString) (line column absolutePos : Z) :
  lengthDistinct buffers ->
  (forall b, buffers b -> agreesWith contextCache b) ->
  buffers code ->
  getAbsolutePosition code line column = Normal absolutePos ->
  exists cache',
    analyzePosition contextCache code line column
    = Normal (analyzeAbsolutePosition code absolutePos, cache')
    /\ (forall b, buffers b -> agreesWith cache' b).
Proof.
  intros Hdistinct Hagree Hcode Hpos. unfold analyzePosition. rewrite Hpos.
  destruct (contextCache !! cacheKey code absolutePos) as [hit|] eqn:Hhit.
  - exists contextCache. split; [|exact Hagree].
    rewrite (Hagree code Hcode _ _ Hhit). reflexivity.
  - eexists. split; [reflexivity|].
    intros b Hb p ctx. rewrite lookup_insert. case_decide as Hkey.
    + apply cacheKey_inj in Hkey as [Hlen <-].
      rewrite (Hdistinct _ _ Hcode Hb Hlen). intros [= <-]. reflexivity.
    + apply Hagree, Hb.
Qed.

Lemma agreesWith_empty (code : jsString) : agreesWith ∅ code.
Proof. intros p ctx. rewrite lookup_empty. discriminate. Qed.

(** ** Snapshots *)

(** X10.  A snapshot of a buffer that is not empty compares as identical
    with that buffer: no difference of length or of lines, no
    changes. *)
Theorem snapshot_round_trip (code : jsString) (snapshotId : string)
  (this : CodeValidator) :
  code <> [] ->
  compareWithSnapshot code snapshotId (createSnapshot code snapshotId this)
  = Normal (Comparison.mk true 0 0 false).
Proof.
  intros Hne. unfold compareWithSnapshot, createSnapshot.
  cbn [codeSnapshots]. rewrite lookup_insert_eq.
  destruct code as [|u rest]; [contradiction|].
  rewrite bool_decide_eq_true_2 by reflexivity.
  rewrite !Z.sub_diag. reflexivity.
Qed.

(** X11.  A snapshot of the empty buffer cannot be compared with: the test
    [!snapshot] takes the empty string for a missing snapshot, and
    [compareWithSnapshot] throws the not-found error for every current
    buffer. *)
Theorem snapshot_empty_not_found (currentCode : jsString)
  (snapshotId : string) (this : CodeValidator) :
  compareWithSnapshot currentCode snapshotId
    (createSnapshot [] snapshotId this)
  = Throw (Error ("Snapshot '" +:+ snapshotId +:+ "' not found")).
Proof.
  unfold compareWithSnapshot, createSnapshot. cbn [codeSnapshots].
  rewrite lookup_insert_eq. reflexivity.
Qed.

(** ** The newest fix *)

Lemma last_tail {A} (l : list A) : (2 <= length l)%nat -> last (tail l) = last l.
Proof. destruct l as [|x [|y l]]; cbn; intros; [lia|lia|reflexivity]. Qed.

Lemma length_tail_pred {A} (l : list A) : length (tail l) = pred (length l).
Proof. destruct l; reflexivity. Qed.

(** X12.  From every state of the validator, [recordFix] leaves the new
    record as the last of the history, so that [canRevert] holds and
    [getStats] reports its time stamp; the snapshots are untouched, and
    the history grows by one record unless it already held a hundred or
    more. *)
Theorem recordFix_newest (now : Z) (ruleId : jsString) (line column : Z)
  (originalText fixedText : jsString) (this : CodeValidator) :
  let this' := recordFix now ruleId line column originalText fixedText this in
  let fixRecord :=
    mkFixRecord ruleId line column originalText fixedText now in
  last (fixHistory this') = Some fixRecord
  /\ canRevert None this' = true
  /\ Stats.lastFixTime (getStats this') = Some now
  /\ codeSnapshots this' = codeSnapshots this
  /\ length (fixHistory this')
     = if 100 <=? count (fixHistory this) then length (fixHistory this)
       else S (length (fixHistory this)).
Proof.
  cbv zeta. unfold recordFix. cbn [fixHistory codeSnapshots].
  set (r := mkFixRecord ruleId line column originalText fixedText now).
  set (h := fixHistory this).
  assert (last (if 100 <? Z.of_nat (length (h ++ [r])) then tail (h ++ [r])
                else h ++ [r]) = Some r) as Hlast.
  { destruct (Z.ltb_spec 100 (Z.of_nat (length (h ++ [r])))).
    - rewrite last_tail by lia. apply last_snoc.
    - apply last_snoc. }
  assert (length (if 100 <? Z.of_nat (length (h ++ [r])) then tail (h ++ [r])
                  else h ++ [r])
          = if 100 <=? count h then length h else S (length h)) as Hlen.
  { unfold count. rewrite length_app. cbn [length].
    destruct (Z.ltb_spec 100 (Z.of_nat (length h + 1)));
      destruct (Z.leb_spec 100 (Z.of_nat (length h))); try lia.
    - rewrite length_tail_pred, length_app. cbn. lia.
    - rewrite length_app. cbn. lia. }
  assert (0 < count (if 100 <? Z.of_nat (length (h ++ [r]))
                     then tail (h ++ [r]) else h ++ [r])) as Hpos.
  { unfold count at 1. rewrite Hlen. unfold count.
    destruct (Z.leb_spec 100 (Z.of_nat (length h))); lia. }
  repeat apply conj.
  - exact Hlast.
  - unfold canRevert. cbn [fixHistory]. apply Z.ltb_lt. exact Hpos.
  - unfold getStats, count. cbn [fixHistory Stats.lastFixTime].
    set (h' := if 100 <? _ then _ else _) in *. unfold count in Hpos.
    destruct (Z.ltb_spec 0 (Z.of_nat (length h'))); [|lia].
    replace (Z.of_nat (length h') - 1) with (Z.of_nat (pred (length h')))
      by lia.
    rewrite item_nat, <- last_lookup, Hlast. reflexivity.
  - reflexivity.
  - exact Hlen.
Qed.

(** ** Lines *)

Lemma relIndex_in_range (n k : Z) : 0 <= k <= n -> relIndex n k = k.
Proof.
  intros Hk. unfold relIndex. destruct (Z.ltb_spec k 0); lia.
Qed.

Lemma sliceArray_range {A} (l : list A) (a b : Z) :
  0 <= a <= b -> b <= count l ->
  sliceArray l a b = take (Z.to_nat (b - a)) (drop (Z.to_nat a) l).
Proof.
  intros Ha Hb. unfold sliceArray.
  rewrite !relIndex_in_range by lia. reflexivity.
Qed.

Lemma Forall_take_drop {A} (P : A -> Prop) (l : list A) (n m : nat) :
  Forall P l -> Forall P (take n (drop m l)).
Proof. intros H. apply Forall_take, Forall_drop, H. Qed.

(** [extractLines] returns the lines from [line] to [endLine], both
    included. *)
Lemma extractLines_lines (code : jsString) (line endLine : Z) :
  1 <= line <= endLine -> endLine <= count (split_newline code) ->
  split_newline (extractLines code line (Some endLine))
  = take (Z.to_nat (endLine - line + 1))
      (drop (Z.to_nat (line - 1)) (split_newline code)).
Proof.
  intros Hline Hend. unfold extractLines.
  assert ((endLine =? 0) = false) as E0 by (apply Z.eqb_neq; lia).
  rewrite !E0.
  destruct (Z.ltb_spec line 1); [lia|].
  destruct (Z.ltb_spec (count (split_newline code)) line); [lia|].
  cbn [orb negb andb].
  pose proof (split_newline_free code) as Hfree.
  destruct (Z.eqb_spec endLine line) as [->|Hne]; cbn [negb].
  - rewrite item_nonneg by lia.
    replace (Z.to_nat (line - line + 1)) with 1%nat by lia.
    destruct (split_newline code !! Z.to_nat (line - 1)) as [l|] eqn:Hl.
    + rewrite (drop_S _ _ _ Hl). cbn [take].
      rewrite take_0.
      apply (split_join_newline [l]); [discriminate|].
      constructor; [|constructor].
      exact (proj1 (Forall_lookup _ _) Hfree _ _ Hl).
    + apply lookup_ge_None in Hl. unfold count in *. lia.
  - rewrite sliceArray_range by lia.
    replace (Z.to_nat (endLine - (line - 1)))
      with (Z.to_nat (endLine - line + 1)) by lia.
    apply split_join_newline; [|apply Forall_take_drop, Hfree].
    intros Hnil. apply (f_equal length) in Hnil.
    rewrite length_take, length_drop in Hnil. unfold count in *.
    cbn in Hnil. lia.
Qed.

(** X14.  Extracting all the lines returns the buffer: [split] and [join]
    on the newline are inverse. *)
Theorem extractLines_all (code : jsString) :
  extractLines code 1 (Some (count (split_newline code))) = code.
Proof.
  rewrite <- (join_split_newline code) at 3.
  rewrite <- (join_split_newline (extractLines _ _ _)).
  pose proof (split_newline_nonempty code) as Hne.
  rewrite extractLines_lines.
  - replace (Z.to_nat (count (split_newline code) - 1 + 1))
      with (length (split_newline code)) by (unfold count; lia).
    change (Z.to_nat (1 - 1)) with 0%nat. rewrite drop_0.
    rewrite take_ge by lia. reflexivity.
  - destruct (split_newline code); [contradiction|].
    unfold count. cbn [length]. lia.
  - lia.
Qed.

(** ** [FixerBase.safeReplace] *)

Lemma slice_range (code : jsString) (a b : Z) :
  0 <= a <= b -> b <= len code ->
  slice code a b = take (Z.to_nat (b - a)) (drop (Z.to_nat a) code).
Proof.
  intros Ha Hb. unfold slice.
  rewrite !relIndex_in_range by lia. reflexivity.
Qed.

Lemma FixerBase_safeReplace_in_bounds (code : jsString) (start end_ : Z)
  (replacement : jsString) :
  0 <= start <= end_ -> end_ <= len code ->
  FixerBase.safeReplace code start end_ replacement
  = Normal (take (Z.to_nat start) code ++ replacement
              ++ drop (Z.to_nat end_) code).
Proof.
  intros Hs He. unfold FixerBase.safeReplace.
  destruct (Z.ltb_spec start 0); [lia|].
  destruct (Z.ltb_spec (len code) end_); [lia|].
  destruct (Z.ltb_spec end_ start); [lia|]. cbn [orb].
  rewrite !slice_range by lia.
  rewrite Z.sub_0_r. change (Z.to_nat 0) with 0%nat. rewrite drop_0.
  rewrite (take_ge (drop _ _))
    by (rewrite length_drop; unfold len in *; lia).
  reflexivity.
Qed.

(** X15.  [FixerBase.safeReplace] within bounds returns a buffer whose
    length is that of the original, less the span, plus the replacement,
    and replacing the inserted text by the replaced text in it returns
    the original buffer. *)
Theorem FixerBase_safeReplace_inverse (code : jsString) (start end_ : Z)
  (replacement : jsString) :
  0 <= start <= end_ -> end_ <= len code ->
  exists newCode,
    FixerBase.safeReplace code start end_ replacement = Normal newCode
    /\ len newCode = len code - (end_ - start) + len replacement
    /\ FixerBase.safeReplace newCode start (start + len replacement)
         (slice code start end_)
       = Normal code.
Proof.
  intros Hs He. eexists. split; [apply FixerBase_safeReplace_in_bounds; lia|].
  set (newCode := take (Z.to_nat start) code ++ replacement
                    ++ drop (Z.to_nat end_) code).
  assert (len newCode = len code - (end_ - start) + len replacement) as Hlen.
  { unfold newCode, len in *.
    rewrite !length_app, length_take, length_drop. lia. }
  split; [exact Hlen|].
  pose proof (len_nonneg replacement).
  rewrite FixerBase_safeReplace_in_bounds by lia.
  rewrite slice_range by lia. unfold newCode.
  assert (length (take (Z.to_nat start) code) = Z.to_nat start) as Htake
    by (rewrite length_take; unfold len in *; lia).
  rewrite take_app_le by lia. rewrite take_take, Nat.min_id.
  replace (Z.to_nat (start + len replacement))
    with (length (take (Z.to_nat start) code ++ replacement))
    by (rewrite length_app, Htake; unfold len; lia).
  rewrite (app_assoc (take (Z.to_nat start) code) replacement).
  rewrite drop_app_length.
  replace (drop (Z.to_nat end_) code)
    with (drop (Z.to_nat (end_ - start)) (drop (Z.to_nat start) code))
    by (rewrite drop_drop; f_equal; lia).
  rewrite !take_drop. reflexivity.
Qed.

(** ** The bracket scan *)

Lemma brackets_closer (o c : N) :
  brackets o = Some c ->
  brackets c = None /\ includes bracketValues c = true.
Proof.
  intros H. unfold brackets in H.
  destruct (N.eqb o (chr "("));
    [injection H as <-; split; vm_compute; reflexivity|].
  destruct (N.eqb o (chr "["));
    [injection H as <-; split; vm_compute; reflexivity|].
  destruct (N.eqb o (chr "{"));
    [injection H as <-; split; vm_compute; reflexivity|].
  discriminate.
Qed.

Lemma bracketLoop_opener (o c : N) (rest : jsString) (i : Z)
  (stack : list StackItem.t) (issues : list string) :
  brackets o = Some c ->
  bracketLoop (o :: rest) i stack issues
  = bracketLoop rest (i + 1) (stack ++ [StackItem.mk o i]) issues.
Proof. intros Ho. cbn [bracketLoop]. rewrite Ho. reflexivity. Qed.

Lemma bracketLoop_other (u : N) (rest : jsString) (i : Z)
  (stack : list StackItem.t) (issues : list string) :
  brackets u = None -> includes bracketValues u = false ->
  bracketLoop (u :: rest) i stack issues
  = bracketLoop rest (i + 1) stack issues.
Proof. intros Hu Hv. cbn [bracketLoop]. rewrite Hu, Hv. reflexivity. Qed.

Lemma bracketLoop_closer_match (o c : N) (k : Z) (rest : jsString) (i : Z)
  (stack : list StackItem.t) (issues : list string) :
  brackets o = Some c ->
  bracketLoop (c :: rest) i (stack ++ [StackItem.mk o k]) issues
  = bracketLoop rest (i + 1) stack issues.
Proof.
  intros Ho. destruct (brackets_closer _ _ Ho) as [Hc Hv].
  cbn [bracketLoop]. rewrite Hc, Hv, last_snoc, removelast_last.
  cbn [StackItem.char]. rewrite bool_decide_eq_true_2 by exact Ho.
  reflexivity.
Qed.

(** The scan passes over a matched text and leaves the stack and the
    issues as they are. *)
Lemma bracketLoop_balanced (s : jsString) :
  balanced s ->
  forall rest i stack issues,
    bracketLoop (s ++ rest) i stack issues
    = bracketLoop rest (i + len s) stack issues.
Proof.
  induction 1 as [|u s Hu Hv _ IH|o c s t Ho _ IHs _ IHt];
    intros rest i stack issues.
  - cbn. rewrite Z.add_0_r. reflexivity.
  - cbn [app]. rewrite bracketLoop_other, IH by assumption.
    f_equal. unfold len. cbn [length]. lia.
  - cbn [app]. rewrite (bracketLoop_opener _ _ _ _ _ _ Ho).
    rewrite <- app_assoc, IHs. cbn [app].
    rewrite (bracketLoop_closer_match _ _ _ _ _ _ _ Ho), IHt.
    f_equal. unfold len. cbn [length]. rewrite length_app. cbn [length]. lia.
Qed.

Lemma balanced_app (a b : jsString) :
  balanced a -> balanced b -> balanced (a ++ b).
Proof.
  induction 1 as [|u s Hu Hv _ IH|o c s t Ho Hs _ _ IHt]; intros Hb.
  - exact Hb.
  - cbn [app]. apply balanced_char; auto.
  - cbn [app]. rewrite <- app_assoc. cbn [app].
    apply balanced_pair; auto.
Qed.

Lemma frames_extend (stack : list StackItem.t) (P b : jsString) :
  frames stack P -> balanced b -> frames stack (P ++ b).
Proof.
  intros HP Hb. destruct HP as [b0 Hb0|stack P o c k b0 HP Ho Hb0].
  - constructor. apply balanced_app; assumption.
  - rewrite <- app_assoc. cbn [app]. econstructor; eauto.
    apply balanced_app; assumption.
Qed.

Lemma bracketLoop_issues_grow (rest : jsString) :
  forall i stack issues,
    exists more, snd (bracketLoop rest i stack issues) = issues ++ more.
Proof.
  induction rest as [|u rest IH]; intros i stack issues.
  - exists []. cbn. rewrite app_nil_r. reflexivity.
  - cbn [bracketLoop].
    destruct (brackets u); [apply IH|].
    destruct (includes bracketValues u); [|apply IH].
    match goal with
    | |- context [if ?b then _ else _] => destruct b
    end; [|apply IH].
    destruct (IH (i + 1) (removelast stack)
                (issues ++ [unmatchedMessage u i])) as [more ->].
    exists (unmatchedMessage u i :: more). rewrite <- app_assoc. reflexivity.
Qed.

Lemma bracketLoop_issue_stays (rest : jsString) (i : Z)
  (stack : list StackItem.t) (w : string) (ws : list string) :
  snd (bracketLoop rest i stack (w :: ws)) <> [].
Proof.
  destruct (bracketLoop_issues_grow rest i stack (w :: ws)) as [more ->].
  discriminate.
Qed.

Lemma bracketLoop_frames (rest : jsString) :
  forall i stack P,
    frames stack P ->
    bracketLoop rest i stack [] = ([], []) ->
    balanced (P ++ rest).
Proof.
  induction rest as [|u rest IH]; intros i stack P HP Hrun.
  - cbn in Hrun. rewrite app_nil_r.
    destruct HP as [b Hb|stack P o c k b HP Ho Hb]; [exact Hb|].
    injection Hrun as Hstack. destruct stack; discriminate.
  - replace (P ++ u :: rest) with ((P ++ [u]) ++ rest)
      by (rewrite <- app_assoc; reflexivity).
    cbn [bracketLoop] in Hrun.
    destruct (brackets u) as [c|] eqn:Hu.
    + apply (IH _ _ _ (frames_push _ _ _ _ i [] HP Hu balanced_nil) Hrun).
    + destruct (includes bracketValues u) eqn:Hv.
      * destruct HP as [b Hb|stack P o c k b HP Ho Hb].
        -- exfalso. cbn in Hrun. apply (f_equal snd) in Hrun.
           exact (bracketLoop_issue_stays _ _ _ _ _ Hrun).
        -- rewrite last_snoc, removelast_last in Hrun.
           cbn [StackItem.char] in Hrun.
           destruct (bool_decide (brackets o = Some u)) eqn:Hmatch;
             cbn [negb] in Hrun.
           ++ apply bool_decide_eq_true_1 in Hmatch.
              replace ((P ++ o :: b) ++ [u]) with (P ++ o :: b ++ [u])
                by (rewrite <- app_assoc; reflexivity).
              exact (IH _ _ _ (frames_extend _ _ _ HP
                       (balanced_pair _ _ _ _ Hmatch Hb balanced_nil))
                       Hrun).
           ++ exfalso. cbn [app] in Hrun. apply (f_equal snd) in Hrun.
              exact (bracketLoop_issue_stays _ _ _ _ _ Hrun).
      * apply (IH _ _ _ (frames_extend _ _ _ HP
                 (balanced_char _ _ Hu Hv balanced_nil)) Hrun).
Qed.

(** The bracket scan raises no issue exactly on the texts whose brackets
    are matched. *)
Lemma bracketIssues_nil_iff (code : jsString) :
  bracketIssues code = [] <-> balanced code.
Proof.
  unfold bracketIssues. split.
  - destruct (bracketLoop code 0 [] []) as [stack issues] eqn:Hrun.
    intros Hnil. apply app_eq_nil in Hnil as [-> Hstack].
    apply map_eq_nil in Hstack as ->.
    exact (bracketLoop_frames code 0 [] [] (frames_nil _ balanced_nil) Hrun).
  - intros Hb. rewrite <- (app_nil_r code).
    rewrite (bracketLoop_balanced _ Hb). reflexivity.
Qed.

(** X18.  [validateSyntax] accepts a buffer exactly when the Function
    constructor accepts it, its brackets are matched and Babel parses
    it. *)
Theorem validateSyntax_valid
  (newFunction : jsString -> option JsError)
  (parse : jsString -> option string) (code : jsString) :
  ValidationResult.isValid (validateSyntax newFunction parse code) = true
  <-> newFunction code = None /\ balanced code /\ parse code = None.
Proof.
  rewrite <- bracketIssues_nil_iff.
  unfold validateSyntax, checkCommonSyntaxIssues.
  destruct (newFunction code) as [error|].
  { cbn. split; [discriminate|]. intros [? _]. discriminate. }
  destruct (parse code) as [message|].
  - destruct (bracketIssues code ++ ["Syntax error: " +:+ message])
      as [|w ws] eqn:Hissues.
    + apply app_eq_nil in Hissues as [_ ?]. discriminate.
    + cbn. split; [discriminate|]. intros (_ & _ & ?). discriminate.
  - destruct (bracketIssues code) as [|w ws]; cbn.
    + tauto.
    + split; [discriminate|]. intros (_ & ? & _). discriminate.
Qed.

Module FixerRegistry_facts.
Import FixerRegistry.

Lemma fold_infos_is_Some (rules : list string)
  (infos : gmap string FixerInfo) (r : string) :
  is_Some (infos !! r) ->
  is_Some (fold_left
             (fun infos ruleId =>
                <[ruleId :=
                    mkInfo ruleId simple
                      ("../existing/" +:+ ruleId +:+ ".js")
                      (boolean true)]> infos)
             rules infos !! r).
Proof.
  revert infos. induction rules as [|x rules IH]; intros infos H; [exact H|].
  cbn [fold_left]. apply IH. rewrite lookup_insert. case_decide; eauto.
Qed.

Lemma consistent_registerExistingFixers (this : t) :
  consistent this -> consistent (registerExistingFixers this).
Proof.
  intros IH q f Hq. cbn [registerExistingFixers fixers fixerInfo] in *.
  destruct (IH _ _ Hq) as [? ?]. split; [assumption|].
  apply fold_infos_is_Some. assumption.
Qed.

Lemma reachable_consistent (this : t) (suspended : nat) :
  reachable this suspended -> consistent this.
Proof.
  induction 1 as [|fixer this this' n _ IH Hreg|r v this n _ IH
                 |r this n _ IH|this n _ IH|this n _ IH|this n _ IH
                 |this n _ IH].
  - intros q f Hq. cbn in Hq. rewrite lookup_empty in Hq. discriminate.
  - intros q f Hq. unfold register in Hreg.
    case_bool_decide; [discriminate|].
    destruct (fixers this !! ruleId fixer) eqn:Hold.
    + injection Hreg as <-. eauto.
    + injection Hreg as <-. cbn [fixers fixerInfo] in *.
      rewrite lookup_insert in Hq. rewrite lookup_insert.
      case_decide as Hk.
      * injection Hq as <-. eauto.
      * eauto.
  - intros q f Hq. unfold setFixerEnabled in Hq |- *.
    destruct (fixerInfo this !! r) eqn:Hinfo; cbn [snd fixers fixerInfo] in *;
      [|eauto].
    destruct (IH _ _ Hq) as [? ?]. split; [assumption|].
    rewrite lookup_insert. case_decide; eauto.
  - intros q f Hq. cbn [unregister snd fixers fixerInfo] in *.
    rewrite lookup_delete in Hq. rewrite lookup_delete.
    case_decide; [discriminate|]. eauto.
  - intros q f Hq. cbn in Hq. rewrite lookup_empty in Hq. discriminate.
  - apply consistent_registerExistingFixers. exact IH.
  - unfold autoDiscoverFixers_call.
    destruct (initialized this); cbn [fst]; [exact IH|].
    apply consistent_registerExistingFixers. exact IH.
  - exact IH.
Qed.

End FixerRegistry_facts.

(** X22.  In a registry built by its methods, every interleaving with
    suspended calls of [autoDiscoverFixers] included, [getFixer] returns
    a fixer exactly for the rules for which [isFixable] returns a true
    value; the fixer is the one stored for the rule and has the rule
    asked; and every registered fixer has its info, so that [isFixable]
    returns the value of [info.enabled] for it, and not [undefined] for
    want of an info. *)
Theorem registry_getFixer_isFixable (this : FixerRegistry.t)
  (suspended : nat) (r : string) :
  FixerRegistry.reachable this suspended ->
  (is_Some (FixerRegistry.getFixer r this)
   <-> FixerRegistry.toBoolean (FixerRegistry.isFixable r this) = true)
  /\ (forall fixer,
        FixerRegistry.getFixer r this = Some fixer ->
        FixerRegistry.fixers this !! r = Some fixer
        /\ FixerRegistry.ruleId fixer = r)
  /\ (forall fixer,
        FixerRegistry.fixers this !! r = Some fixer ->
        exists info,
          FixerRegistry.fixerInfo this !! r = Some info
          /\ FixerRegistry.isFixable r this = FixerRegistry.enabled info).
Proof.
  intros Hreach.
  pose proof (FixerRegistry_facts.reachable_consistent _ _ Hreach r) as Hcons.
  unfold FixerRegistry.getFixer, FixerRegistry.isFixable.
  destruct (FixerRegistry.fixers this !! r) as [fixer|].
  - destruct (Hcons fixer eq_refl) as [Hrule [info Hinfo]]. rewrite Hinfo.
    split; [|split].
    + destruct (FixerRegistry.toBoolean (FixerRegistry.enabled info)); cbn.
      * split; eauto.
      * split; [intros [? ?]|]; discriminate.
    + intros f Hf.
      destruct (FixerRegistry.toBoolean (FixerRegistry.enabled info));
        cbn in Hf; [|discriminate].
      injection Hf as <-. split; [reflexivity|exact Hrule].
    + intros f [= <-]. eauto.
  - repeat apply conj; try discriminate. intros [? ?]. discriminate.
Qed.

(** X23.  A second fixer for a rule that has one is not registered: the
    registry stays as the first registration left it. *)
Theorem registry_first_registration_wins (first second : FixerRegistry.Fixer)
  (this this1 : FixerRegistry.t) :
  FixerRegistry.ruleId first = FixerRegistry.ruleId second ->
  FixerRegistry.register first this = Normal this1 ->
  FixerRegistry.register second this1 = Normal this1.
Proof.
  intros Hrule Hreg. unfold FixerRegistry.register in *.
  rewrite <- Hrule.
  case_bool_decide; [discriminate|].
  destruct (FixerRegistry.fixers this !! FixerRegistry.ruleId first) eqn:Hold.
  - injection Hreg as <-. rewrite Hold. reflexivity.
  - injection Hreg as <-. cbn [FixerRegistry.fixers].
    rewrite lookup_insert_eq. reflexivity.
Qed.

Lemma findEndOfFunction_loop_step
  (contextCache : gmap string LexicalContext) (code : jsString) (i : Z)
  (stack : list N) :
  findEndOfFunction_loop contextCache code i stack =
  if i <? len code
  then match FindEnd.body contextCache code i stack with
       | FindEnd.Return r cache' => Normal (r, cache')
       | FindEnd.Next stack' cache' =>
           findEndOfFunction_loop cache' code (i + 1) stack'
       | FindEnd.Raise e => Throw e
       end
  else Normal (-1, contextCache).
Proof.
  funelim (findEndOfFunction_loop contextCache code i stack).
  all: match goal with
       | E : (_ <? _) = _ |- _ => rewrite E
       end; try rewrite Heq; reflexivity.
Qed.

(** A pass inside the buffer does not throw, and returns only the index
    of a closing brace. *)
Lemma FindEnd_body_spec (contextCache : gmap string LexicalContext)
  (code : jsString) (i : Z) (stack : list N) :
  0 <= i < len code ->
  match FindEnd.body contextCache code i stack with
  | FindEnd.Return r _ => r = i /\ code.[i] = Some (chr "}")
  | FindEnd.Next _ _ => True
  | FindEnd.Raise _ => False
  end.
Proof.
  intros Hi. unfold FindEnd.body.
  destruct (lineColumnAt_getAbsolutePosition code i ltac:(lia)) as [Hpos _].
  destruct (lineColumnAt code i) as [line column]. cbn [fst snd] in Hpos.
  unfold analyzePosition. rewrite Hpos.
  destruct (contextCache !! cacheKey code i) as [context|];
    repeat match goal with
           | |- context [if ?b then _ else _] => destruct b eqn:?
           end; try exact I.
  all: split; [reflexivity|apply charIs_Some; assumption].
Qed.

Lemma findEndOfFunction_loop_result
  (contextCache : gmap string LexicalContext) (code : jsString)
  (start i : Z) (stack : list N) :
  0 <= start <= i ->
  exists r cache',
    findEndOfFunction_loop contextCache code i stack = Normal (r, cache')
    /\ (r = -1 \/ (start <= r < len code /\ code.[r] = Some (chr "}"))).
Proof.
  intros Hle.
  funelim (findEndOfFunction_loop contextCache code i stack).
  - do 2 eexists. split; [reflexivity|left; reflexivity].
  - pose proof (FindEnd_body_spec contextCache code i stack) as Hbody.
    match goal with
    | E : (_ <? _) = true |- _ => pose proof (proj1 (Z.ltb_lt _ _) E)
    end.
    rewrite Heq in Hbody.
    destruct (Hbody ltac:(lia)) as [-> Hchar].
    do 2 eexists. split; [reflexivity|right; split; [lia|exact Hchar]].
  - apply H; lia.
  - pose proof (FindEnd_body_spec contextCache code i stack) as Hbody.
    match goal with
    | E : (_ <? _) = true |- _ => pose proof (proj1 (Z.ltb_lt _ _) E)
    end.
    rewrite Heq in Hbody. destruct (Hbody ltac:(lia)).
Qed.

(** X19.  [findEndOfFunction] does not throw, whatever the cache holds,
    and returns -1 or the index of a closing brace of the buffer at or
    after [start]. *)
Theorem findEndOfFunction_result
  (contextCache : gmap string LexicalContext) (code : jsString) (start : Z) :
  0 <= start ->
  exists r cache',
    findEndOfFunction contextCache code start = Normal (r, cache')
    /\ (r = -1 \/ (start <= r < len code /\ code.[r] = Some (chr "}"))).
Proof.
  intros Hstart. apply findEndOfFunction_loop_result. lia.
Qed.


Section FunctionNode_facts.

Variable newFunction : jsString -> option JsError.
Variable parse : jsString -> option string.


End FunctionNode_facts.

(** X16.  When the span lies within the buffer, a successful exported
    [safeReplace] returns the buffer that [FixerBase.safeReplace] builds
    for the same span. *)
Theorem safeReplace_agrees_with_FixerBase
  (newFunction : jsString -> option JsError)
  (parse : jsString -> option string)
  (contextCache : gmap string LexicalContext)
  (code : jsString) (line column length : Z) (replacement : jsString)
  (absolutePos : Z) :
  getAbsolutePosition code line column = Normal absolutePos ->
  0 <= absolutePos -> 0 <= length -> absolutePos + length <= len code ->
  ReplaceResult.success
    (fst (safeReplace newFunction parse contextCache code line column length
            replacement)) = true ->
  FixerBase.safeReplace code absolutePos (absolutePos + length) replacement
  = Normal
      (ReplaceResult.code
         (fst (safeReplace newFunction parse contextCache code line column
                 length replacement))).
Proof.
  intros Hpos Hp Hlen Hend. unfold safeReplace.
  destruct (findSafeFixZone contextCache code line column)
    as [[safeZone cache']|error]; [|discriminate].
  destruct (SafeZone.isSafe safeZone); [|discriminate]. cbn [negb].
  rewrite Hpos.
  destruct (ValidationResult.isValid _); [|discriminate].
  cbn [negb fst ReplaceResult.success ReplaceResult.code]. intros _.
  rewrite FixerBase_safeReplace_in_bounds by lia.
  rewrite substring_prefix, substringFrom_drop by lia. reflexivity.
Qed.

Lemma safeReplace_agrees_with_FixerBase_witness :
  getAbsolutePosition (js "a+b") 1 2 = Normal 1
  /\ ReplaceResult.success
       (fst (safeReplace (fun _ => None) (fun _ => None) ∅ (js "a+b") 1 2 1
               (js "-"))) = true
  /\ FixerBase.safeReplace (js "a+b") 1 (1 + 1) (js "-")
     = Normal
         (ReplaceResult.code
            (fst (safeReplace (fun _ => None) (fun _ => None) ∅ (js "a+b")
                    1 2 1 (js "-")))).
Proof.
  assert (getAbsolutePosition (js "a+b") 1 2 = Normal 1) as Hpos
    by (vm_compute; reflexivity).
  assert (ReplaceResult.success
            (fst (safeReplace (fun _ => None) (fun _ => None) ∅ (js "a+b")
                    1 2 1 (js "-"))) = true) as Hok
    by (vm_compute; reflexivity).
  split; [exact Hpos|]. split; [exact Hok|].
  apply (safeReplace_agrees_with_FixerBase (fun _ => None) (fun _ => None) ∅
           (js "a+b") 1 2 1 (js "-") 1 Hpos); [lia|lia| |exact Hok].
  vm_compute. discriminate.
Defined.

Section ScanRuns.
Import Scan Scan_loop.

(** Running the loop up to [q] and then up to [p] is running it up to
    [p]. *)
Lemma loop_split (code : jsString) (q p : Z) (s : locals) :
  q <= p -> loop code p (loop code q s) = loop code p s.
Proof.
  intros Hqp. funelim (loop code q s).
  - rewrite (loop_step code p s).
    pose proof e as He. unfold running in He |- *.
    apply andb_prop in He as [Hlt%Z.ltb_lt Hlen].
    destruct (Z.ltb_spec (i s) p); [|lia]. rewrite Hlen. cbn [andb].
    apply H. exact Hqp.
  - reflexivity.
Qed.

Lemma loop_one (code : jsString) (p : Z) (s : locals) :
  i s < p -> i s < len code ->
  loop code p s = loop code p (body code s).
Proof.
  intros H1 H2. rewrite loop_step. unfold running.
  destruct (Z.ltb_spec (i s) p); [|lia].
  destruct (Z.ltb_spec (i s) (len code)); [|lia]. reflexivity.
Qed.

Lemma loop_done (code : jsString) (p : Z) (s : locals) :
  p <= i s -> loop code p s = s.
Proof. apply loop_not_entered. Qed.

Lemma whitespace_not (u : N) (a : ascii) :
  isWhitespace (Some u) = true -> isWhitespace (Some (chr a)) = false ->
  charIs (Some u) a = false.
Proof.
  intros Hu Ha. cbn [charIs]. destruct (N.eqb_spec u (chr a)) as [->|];
    [congruence|reflexivity].
Qed.

(** A white-space character in plain code is passed over. *)
Lemma body_plain_whitespace (code : jsString) (k : Z) (u : N) :
  code.[k] = Some u -> isWhitespace (Some u) = true ->
  body code (plainAt k) = plainAt (k + 1).
Proof.
  intros Hk Hu. unfold body, codeBody, endSingleComment, handleRegex,
    endRegex, singleQuotes, doubleQuotes, templateLiterals, closeExpression.
  cbn [plainAt i inSingleQuote inDoubleQuote inTemplate inSingleComment
       inMultiComment inRegex templateDepth regexContext andb orb negb].
  rewrite Hk.
  rewrite (whitespace_not u "\"), (whitespace_not u "/"),
    (whitespace_not u "'"), (whitespace_not u "034"),
    (whitespace_not u "`") by (assumption || reflexivity).
  cbn [andb orb negb inSingleQuote inDoubleQuote inTemplate inSingleComment
       inMultiComment inRegex templateDepth regexContext].
  reflexivity.
Qed.

(** Two slashes in plain code open a single-line comment. *)
Lemma body_plain_slashes (code : jsString) (k : Z) :
  code.[k] = Some (chr "/") -> code.[k + 1] = Some (chr "/") ->
  body code (plainAt k) = commentAt (k + 2).
Proof.
  intros Hk Hk1. unfold body.
  cbn [plainAt i inSingleQuote inDoubleQuote inTemplate inSingleComment
       inMultiComment inRegex templateDepth regexContext andb orb negb].
  rewrite Hk, Hk1. reflexivity.
Qed.

(** Inside a single-line comment a character other than the newline is
    passed over; only two slashes are passed together. *)
Lemma body_comment_char (code : jsString) (k : Z) :
  charIs code.[k] "010" = false ->
  body code (commentAt k) = commentAt (k + 1)
  \/ (code.[k + 1] = Some (chr "/")
      /\ body code (commentAt k) = commentAt (k + 2)).
Proof.
  intros Hk. unfold body, endSingleComment.
  cbn [commentAt i inSingleQuote inDoubleQuote inTemplate inSingleComment
       inMultiComment inRegex templateDepth regexContext andb orb negb].
  rewrite Hk.
  destruct (charIs code.[k] "\"); cbn [andb].
  - destruct (charIs code.[k] "/" && charIs code.[k + 1] "/")%bool eqn:Hs.
    + right. apply andb_prop in Hs as [_ Hs%charIs_Some]. auto.
    + left. reflexivity.
  - destruct (charIs code.[k] "/" && charIs code.[k + 1] "/")%bool eqn:Hs.
    + right. apply andb_prop in Hs as [_ Hs%charIs_Some]. auto.
    + left. reflexivity.
Qed.

(** The newline ends the single-line comment. *)
Lemma body_comment_newline (code : jsString) (k : Z) :
  code.[k] = Some (chr "010") ->
  body code (commentAt k) = plainAt (k + 1).
Proof.
  intros Hk. unfold body, codeBody, endSingleComment, handleRegex,
    endRegex, singleQuotes, doubleQuotes, templateLiterals, closeExpression.
  cbn [commentAt i inSingleQuote inDoubleQuote inTemplate inSingleComment
       inMultiComment inRegex templateDepth regexContext andb orb negb].
  rewrite Hk. reflexivity.
Qed.

End ScanRuns.

Section CommentRuns.
Import Scan Scan_loop.

Lemma item_Some_range {A} (l : list A) (k : Z) (x : A) :
  l.[k] = Some x -> 0 <= k < count l.
Proof.
  unfold item, count. destruct (Z.ltb_spec k 0); [discriminate|].
  intros Hk%lookup_lt_Some. lia.
Qed.

(** A run of white space in plain code. *)
Lemma run_whitespace (code : jsString) (n : nat) :
  forall k,
    (forall j, 0 <= j < Z.of_nat n ->
               exists u, code.[k + j] = Some u
                         /\ isWhitespace (Some u) = true) ->
    forall q, k <= q <= k + Z.of_nat n ->
              loop code q (plainAt k) = plainAt q.
Proof.
  induction n as [|n IH]; intros k Hws q Hq.
  - replace q with k by lia. apply loop_done. cbn. lia.
  - destruct (Z.eq_dec q k) as [->|Hne]; [apply loop_done; cbn; lia|].
    destruct (Hws 0 ltac:(lia)) as (u & Hu & Hw). rewrite Z.add_0_r in Hu.
    pose proof (item_Some_range _ _ _ Hu) as Hrange.
    rewrite loop_one by (cbn; unfold count, len in *; lia).
    rewrite (body_plain_whitespace _ _ _ Hu Hw).
    apply IH; [|lia].
    intros j Hj. replace (k + 1 + j) with (k + (j + 1)) by lia.
    apply Hws. lia.
Qed.

(** A run without newline inside a single-line comment: the loop run up
    to [q] stops at [q] or one further, still inside the comment. *)
Lemma run_comment (code : jsString) (e : Z) (n : nat) :
  code.[e] <> Some (chr "/") ->
  forall k,
    Z.to_nat (e - k) = n ->
    (forall j, k <= j < e ->
               charIs code.[j] "010" = false /\ j < len code) ->
    forall q, k <= q <= e ->
              exists j, q <= j <= e /\ loop code q (commentAt k) = commentAt j.
Proof.
  intros He. induction (lt_wf n) as [n _ IH]. intros k Hn Hrun q Hq.
  destruct (Z.eq_dec q k) as [->|Hne].
  { exists k. split; [lia|]. apply loop_done. cbn. lia. }
  destruct (Hrun k ltac:(lia)) as [Hk Hlen].
  rewrite loop_one by (cbn; lia).
  destruct (body_comment_char code k Hk) as [->|[Hslash ->]].
  - apply (IH (Z.to_nat (e - (k + 1)))); try lia.
    intros j Hj. apply Hrun. lia.
  - assert (k + 1 <> e) by (intros <-; contradiction).
    destruct (Z.le_gt_cases q (k + 2)).
    + exists (k + 2). split; [lia|]. apply loop_done. cbn. lia.
    + apply (IH (Z.to_nat (e - (k + 2)))); try lia.
      intros j Hj. apply Hrun. lia.
Qed.

End CommentRuns.

(** ** The layout of joined lines *)

Lemma item_app_r (pre rest : jsString) (j : Z) :
  0 <= j -> (pre ++ rest).[len pre + j] = rest.[j].
Proof.
  intros Hj. unfold len. rewrite !item_nonneg by lia.
  rewrite lookup_app_r by lia. f_equal. lia.
Qed.

Lemma item_app_l (seg rest : jsString) (j : Z) :
  j < len seg -> (seg ++ rest).[j] = seg.[j].
Proof.
  intros Hj. unfold item, len in *. destruct (Z.ltb_spec j 0); [reflexivity|].
  apply lookup_app_l. lia.
Qed.

Lemma item_elem (seg : jsString) (j : Z) :
  0 <= j < len seg -> exists u, seg.[j] = Some u /\ u ∈ seg.
Proof.
  intros Hj. unfold len in *. rewrite item_nonneg by lia.
  destruct (lookup_lt_is_Some_2 seg (Z.to_nat j) ltac:(lia)) as [u Hu].
  exists u. split; [exact Hu|]. eapply list_elem_of_lookup_2, Hu.
Qed.

Lemma item_end (seg : jsString) : seg.[len seg] = None.
Proof.
  unfold len. rewrite item_nat. apply lookup_ge_None. lia.
Qed.

Lemma lineStart_S (L : list jsString) (n : nat) (x : jsString) :
  L !! n = Some x -> lineStart L (S n) = lineStart L n + len x + 1.
Proof.
  revert L. induction n as [|n IH]; intros [|y L] Hx; try discriminate.
  - injection Hx as ->. cbn. lia.
  - cbn [lookup] in Hx. cbn [lineStart]. specialize (IH L Hx).
    cbn [lineStart] in IH. rewrite IH. lia.
Qed.

(** Line [n] of the joined lines starts at [lineStart L n] and is followed
    by a newline, or by the end of the text when it is the last line. *)
Lemma join_newline_layout (L : list jsString) (n : nat) (x : jsString) :
  L !! n = Some x ->
  exists pre post,
    join_newline L = pre ++ x ++ post
    /\ len pre = lineStart L n
    /\ ((post = [] /\ S n = length L)
        \/ (S n < length L)%nat /\ exists rest, post = chr "010" :: rest).
Proof.
  intros Hx.
  pose proof (take_drop_middle _ _ _ Hx) as HL.
  set (before := take n L) in *. set (after := drop (S n) L) in *.
  assert (length before = n) as Hn.
  { unfold before. rewrite length_take. pose proof (lookup_lt_Some _ _ _ Hx).
    lia. }
  exists (join_newline (before ++ [[]])),
    (match after with [] => [] | _ :: _ => chr "010" :: join_newline after end).
  split; [|split].
  - rewrite <- HL. apply (join_newline_split_at before [] x after).
  - rewrite len_join_newline, <- HL, <- Hn, lineStart_app.
    unfold len. cbn [length]. lia.
  - assert (length after = length L - S n)%nat as Hafter
      by (unfold after; apply length_drop).
    pose proof (lookup_lt_Some _ _ _ Hx).
    destruct after; cbn [length] in Hafter; [left|right]; split; eauto; lia.
Qed.

(** ** The lines of [addCommentsToEachLine] *)

Lemma leadingWhitespace_spec (line : jsString) :
  whitespaceOnly (leadingWhitespace line)
  /\ line = leadingWhitespace line
            ++ drop (length (leadingWhitespace line)) line
  /\ (drop (length (leadingWhitespace line)) line = []
      <-> isBlank line = true).
Proof.
  induction line as [|u line (IH1 & IH2 & IH3)].
  - repeat split; auto. intros u Hu. apply elem_of_nil in Hu. contradiction.
  - cbn [leadingWhitespace isBlank forallb].
    destruct (isWhitespace (Some u)) eqn:Hu.
    + cbn [length drop app andb]. split; [|split].
      * intros v [->|Hv]%elem_of_cons; auto.
      * f_equal. exact IH2.
      * exact IH3.
    + cbn [length drop app andb]. repeat split; auto; try discriminate.
      intros v Hv. apply elem_of_nil in Hv. contradiction.
Qed.

Lemma isBlank_whitespaceOnly (s : jsString) :
  isBlank s = true -> whitespaceOnly s.
Proof.
  unfold isBlank. rewrite forallb_forall. intros H u Hu.
  apply H. apply list_elem_of_In. exact Hu.
Qed.

Lemma commentLine_blank (line : jsString) :
  isBlank line = true -> commentLine line = line.
Proof.
  intros Hb. unfold commentLine.
  destruct (leadingWhitespace_spec line) as (_ & _ & Hiff).
  rewrite substringFrom_drop.
  - unfold len. rewrite Nat2Z.id, (proj2 Hiff Hb). reflexivity.
  - unfold len. destruct (leadingWhitespace_spec line) as (_ & Heq & _).
    apply (f_equal length) in Heq. rewrite length_app in Heq. lia.
Qed.

Lemma commentLine_nonblank (line : jsString) :
  isBlank line = false ->
  commentLine line
  = leadingWhitespace line ++ js "// "
      ++ drop (length (leadingWhitespace line)) line.
Proof.
  intros Hb. unfold commentLine.
  destruct (leadingWhitespace_spec line) as (_ & Heq & Hiff).
  rewrite substringFrom_drop.
  - unfold len. rewrite Nat2Z.id. case_bool_decide as Hc; [|reflexivity].
    apply Hiff in Hc. congruence.
  - unfold len. apply (f_equal length) in Heq. rewrite length_app in Heq.
    lia.
Qed.

Lemma newline_free_commentLine (line : jsString) :
  newline_free line -> newline_free (commentLine line).
Proof.
  intros Hfree. destruct (isBlank line) eqn:Hb.
  - rewrite commentLine_blank by exact Hb. exact Hfree.
  - rewrite commentLine_nonblank by exact Hb.
    destruct (leadingWhitespace_spec line) as (_ & Heq & _).
    unfold newline_free in *. rewrite Heq in Hfree.
    rewrite not_elem_of_app in Hfree. destruct Hfree as [Hws Hcontent].
    rewrite !not_elem_of_app. repeat split; try assumption.
    vm_compute. intros H. repeat (inversion H as [|? ? ? H']; clear H;
      rename H' into H).
Qed.

Section CommentedLine.
Import Scan Scan_loop.

Variables (pre post line : jsString).
Hypothesis Hfree : newline_free line.
Hypothesis Hpost : post = [] \/ exists rest, post = chr "010" :: rest.

Let L := commentLine line.
Let code := pre ++ L ++ post.
Let k := len pre.

Lemma line_char (m : Z) :
  0 <= m < len L ->
  exists u, code.[k + m] = Some u /\ L.[m] = Some u /\ u ∈ L
            /\ k + m < len code.
Proof.
  intros Hm. destruct (item_elem L m Hm) as (u & Hu & Hin).
  exists u. unfold code, k. rewrite item_app_r, item_app_l by lia.
  repeat split; try assumption. rewrite !len_app.
  pose proof (len_nonneg post). lia.
Qed.

Lemma line_end_char :
  code.[k + len L] = None \/ code.[k + len L] = Some (chr "010").
Proof.
  unfold code, k. rewrite item_app_r by apply len_nonneg.
  replace (len L) with (len L + 0) by lia. rewrite item_app_r by lia.
  destruct Hpost as [->|[rest ->]]; [left|right]; reflexivity.
Qed.

(** From the start of a line that is not blank, the loop run up to an
    offset behind the two slashes stops inside the comment. *)
Lemma scan_line_comment (j : Z) :
  isBlank line = false ->
  len (leadingWhitespace line) + 2 <= j <= len L ->
  exists j', k + j <= j' <= k + len L
             /\ loop code (k + j) (plainAt k) = commentAt j'.
Proof.
  intros Hb Hj.
  pose proof (commentLine_nonblank line Hb) as HL. fold L in HL.
  destruct (leadingWhitespace_spec line) as (Hws & _ & _).
  set (ws := leadingWhitespace line) in *.
  set (content := drop (length ws) line) in *.
  pose proof (len_nonneg ws) as Hws0.
  assert (len L = len ws + 3 + len content) as HlenL.
  { rewrite HL, !len_app. unfold len at 2. cbn [js length map
      list_ascii_of_string]. lia. }
  pose proof (len_nonneg content).
  (* the white space *)
  assert (loop code (k + len ws) (plainAt k) = plainAt (k + len ws)) as H1.
  { apply (run_whitespace code (length ws)); [|unfold len; lia].
    intros m Hm. destruct (line_char m ltac:(unfold len in *; lia))
      as (u & Hu & HLm & _ & _).
    exists u. split; [exact Hu|]. apply Hws.
    rewrite HL, item_app_l in HLm by (unfold len; lia).
    rewrite item_nonneg in HLm by lia.
    eapply list_elem_of_lookup_2, HLm. }
  rewrite <- (loop_split code (k + len ws) (k + j)) by lia. rewrite H1.
  (* the two slashes *)
  assert (forall m, 0 <= m < 3 + len content ->
                    L.[len ws + m] = (js "// " ++ content).[m]) as Htail.
  { intros m Hm. rewrite HL. apply item_app_r. lia. }
  assert (code.[k + len ws] = Some (chr "/")) as Hs0.
  { destruct (line_char (len ws) ltac:(lia)) as (u & -> & HLm & _).
    rewrite <- HLm. replace (len ws) with (len ws + 0) at 1 by lia.
    rewrite Htail by lia. reflexivity. }
  assert (code.[k + len ws + 1] = Some (chr "/")) as Hs1.
  { destruct (line_char (len ws + 1) ltac:(lia)) as (u & Hu & HLm & _).
    rewrite <- Z.add_assoc, Hu, <- HLm. rewrite Htail by lia. reflexivity. }
  destruct (line_char (len ws) ltac:(lia)) as (_ & _ & _ & _ & Hin).
  rewrite loop_one by (cbn; lia).
  rewrite (body_plain_slashes _ _ Hs0 Hs1).
  (* the comment *)
  destruct (run_comment code (k + len L)
              (Z.to_nat (k + len L - (k + len ws + 2)))) with
    (k := k + len ws + 2) (q := k + j) as (j' & Hj' & Hrun); try lia.
  - destruct line_end_char as [-> | ->]; discriminate.
  - intros m Hm.
    destruct (line_char (m - k) ltac:(lia)) as (u & Hu & _ & Hmem & Hlt).
    replace (k + (m - k)) with m in * by lia. rewrite Hu. split; [|lia].
    cbn [charIs]. destruct (N.eqb_spec u (chr "010")) as [->|]; [|reflexivity].
    destruct (newline_free_commentLine line Hfree Hmem).
  - exists j'. split; [lia|exact Hrun].
Qed.

(** A line that a newline follows is scanned from plain code to plain
    code. *)
Lemma scan_line_next :
  (exists rest, post = chr "010" :: rest) ->
  loop code (k + len L + 1) (plainAt k) = plainAt (k + len L + 1).
Proof.
  intros [rest Hrest].
  assert (code.[k + len L] = Some (chr "010")) as Hnl.
  { unfold code, k. rewrite item_app_r by apply len_nonneg.
    replace (len L) with (len L + 0) by lia. rewrite item_app_r by lia.
    rewrite Hrest. reflexivity. }
  pose proof (item_Some_range _ _ _ Hnl) as Hrange. unfold count in Hrange.
  fold (len code) in Hrange. pose proof (len_nonneg L).
  destruct (isBlank line) eqn:Hb.
  - apply (run_whitespace code (S (length L))); [|unfold len; lia].
    intros m Hm. destruct (Z.eq_dec m (len L)) as [->|Hne].
    + exists (chr "010"). split; [exact Hnl|reflexivity].
    + destruct (line_char m ltac:(unfold len in *; lia))
        as (u & Hu & _ & Hin & _).
      exists u. split; [exact Hu|].
      unfold L in Hin. rewrite commentLine_blank in Hin by exact Hb.
      exact (isBlank_whitespaceOnly _ Hb _ Hin).
  - pose proof (commentLine_nonblank line Hb) as HL. fold L in HL.
    assert (len (leadingWhitespace line) + 2 <= len L) as Hlen.
    { rewrite HL, !len_app. unfold len at 3. cbn [js length map
        list_ascii_of_string].
      pose proof (len_nonneg (drop (length (leadingWhitespace line)) line)).
      lia. }
    destruct (scan_line_comment (len L) Hb ltac:(lia)) as (j' & Hj' & Hrun).
    replace j' with (k + len L) in Hrun by lia.
    rewrite <- (loop_split code (k + len L) (k + len L + 1)) by lia.
    rewrite Hrun, loop_one by (cbn; lia).
    rewrite (body_comment_newline _ _ Hnl). apply loop_done. cbn. lia.
Qed.

End CommentedLine.

Section CommentedText.
Import Scan Scan_loop.

Variable lines : list jsString.
Hypothesis Hfree : Forall newline_free lines.

Let L := map commentLine lines.
Let out := join_newline L.

Lemma out_layout (n : nat) (line : jsString) :
  lines !! n = Some line ->
  exists pre post,
    out = pre ++ commentLine line ++ post
    /\ len pre = lineStart L n
    /\ ((post = [] /\ S n = length L)
        \/ (S n < length L)%nat /\ exists rest, post = chr "010" :: rest).
Proof.
  intros Hline. apply join_newline_layout. unfold L.
  rewrite list_lookup_fmap, Hline. reflexivity.
Qed.

(** The scan reaches the start of every line in plain code. *)
Lemma scan_line_start (n : nat) :
  (n < length lines)%nat ->
  loop out (lineStart L n) (plainAt 0) = plainAt (lineStart L n).
Proof.
  induction n as [|n IH]; intros Hn.
  - apply loop_done. cbn. lia.
  - destruct (lookup_lt_is_Some_2 lines n ltac:(lia)) as [line Hline].
    destruct (out_layout n line Hline) as (pre & post & Hout & Hpre & Hpost).
    assert (L !! n = Some (commentLine line)) as HL
      by (unfold L; rewrite list_lookup_fmap, Hline; reflexivity).
    rewrite (lineStart_S _ _ _ HL).
    pose proof (len_nonneg (commentLine line)).
    assert (0 <= lineStart L n) by (rewrite <- Hpre; apply len_nonneg).
    rewrite <- (loop_split out (lineStart L n)) by lia.
    rewrite IH by lia. rewrite Hout, <- Hpre.
    destruct Hpost as [[_ Hlast]|[_ Hrest]].
    + unfold L in Hlast. rewrite length_map in Hlast. lia.
    + apply scan_line_next; [|eauto|exact Hrest].
      exact (proj1 (Forall_lookup _ _) Hfree _ _ Hline).
Qed.

Lemma scan_commented_line (n : nat) (line : jsString) (j : Z) :
  lines !! n = Some line ->
  isBlank line = false ->
  len (leadingWhitespace line) + 2 <= j <= len (commentLine line) ->
  exists j', loop out (lineStart L n + j) (plainAt 0) = commentAt j'.
Proof.
  intros Hline Hb Hj.
  destruct (out_layout n line Hline) as (pre & post & Hout & Hpre & Hpost).
  pose proof (len_nonneg (leadingWhitespace line)).
  assert (0 <= lineStart L n) by (rewrite <- Hpre; apply len_nonneg).
  rewrite <- (loop_split out (lineStart L n)) by lia.
  rewrite scan_line_start by (apply lookup_lt_Some in Hline; exact Hline).
  rewrite Hout, <- Hpre.
  destruct (scan_line_comment pre post line
              (proj1 (Forall_lookup _ _) Hfree _ _ Hline)
              ltac:(destruct Hpost as [[? _]|[_ ?]]; auto) j Hb Hj)
    as (j' & _ & Hrun).
  exists j'. exact Hrun.
Qed.

End CommentedText.

Lemma isBlank_false_input (input : jsString) :
  isBlank input = false ->
  addCommentsToEachLine input
  = join_newline (map commentLine (split_newline input)).
Proof. intros Hb. unfold addCommentsToEachLine. rewrite Hb. reflexivity. Qed.

(** X21.  In the output of [addCommentsToEachLine] on an input that is not
    blank, the lines are the commented lines of the input, and on every
    line that is not blank the scan classifies every offset behind the
    two slashes, up to the end of the line, as inside a single-line
    comment. *)
Theorem addCommentsToEachLine_scans_as_comment (input : jsString)
  (n : nat) (line : jsString) (j : Z) :
  isBlank input = false ->
  split_newline input !! n = Some line ->
  isBlank line = false ->
  len (leadingWhitespace line) + 2 <= j <= len (commentLine line) ->
  let out := addCommentsToEachLine input in
  split_newline out = map commentLine (split_newline input)
  /\ analyzeAbsolutePosition out (lineStart (split_newline out) n + j)
     = mkContext false true false false false None (Some single).
Proof.
  intros Hinput Hline Hb Hj out.
  assert (split_newline out = map commentLine (split_newline input))
    as Hsplit.
  { unfold out. rewrite isBlank_false_input by exact Hinput.
    apply split_join_newline.
    - pose proof (split_newline_nonempty input).
      destruct (split_newline input); [contradiction|discriminate].
    - apply Forall_fmap. eapply Forall_impl; [apply split_newline_free|].
      intros l Hl. apply newline_free_commentLine, Hl. }
  split; [exact Hsplit|]. rewrite Hsplit.
  destruct (scan_commented_line (split_newline input)
              (split_newline_free input) n line j Hline Hb Hj)
    as [j' Hrun].
  unfold analyzeAbsolutePosition, out.
  rewrite isBlank_false_input by exact Hinput.
  change Scan.initial with (plainAt 0). rewrite Hrun. reflexivity.
Qed.

Lemma addCommentsToEachLine_scans_as_comment_witness :
  let input := js " x = 1
y" in
  isBlank input = false
  /\ split_newline input !! 1%nat = Some (js "y")
  /\ isBlank (js "y") = false
  /\ len (leadingWhitespace (js "y")) + 2 <= 3 <= len (commentLine (js "y"))
  /\ addCommentsToEachLine input = js " // x = 1
// y"
  /\ analyzeAbsolutePosition (addCommentsToEachLine input)
       (lineStart (split_newline (addCommentsToEachLine input)) 1 + 3)
     = mkContext false true false false false None (Some single).
Proof.
  intros input.
  assert (isBlank input = false) as H1 by reflexivity.
  assert (split_newline input !! 1%nat = Some (js "y")) as H2 by reflexivity.
  assert (isBlank (js "y") = false) as H3 by reflexivity.
  assert (len (leadingWhitespace (js "y")) + 2 <= 3
          <= len (commentLine (js "y"))) as H4
    by (vm_compute; split; discriminate).
  repeat apply conj; try assumption; try apply H4.
  - vm_compute. reflexivity.
  - exact (proj2 (addCommentsToEachLine_scans_as_comment input 1 (js "y") 3
                    H1 H2 H3 H4)).
Defined.

(** X3.  [getAbsolutePosition] in closed form: the sum of the lengths of
    the lines before [line], each plus one, plus [column - 1].  A line
    number of 1 or less reads no line, so the result is [column - 1];
    the call throws the [TypeError] exactly when [line] exceeds the
    number of lines by two or more. *)
Theorem getAbsolutePosition_throws (code : jsString) (line column : Z) :
  getAbsolutePosition code line column
  = (if line - 1 <=? count (split_newline code)
     then Normal (lineStart (split_newline code) (Z.to_nat (line - 1))
                  + column - 1)
     else Throw (TypeError undefinedLengthMessage))
  /\ (line <= 1 -> getAbsolutePosition code line column = Normal (column - 1))
  /\ (getAbsolutePosition code line column
      = Throw (TypeError undefinedLengthMessage)
      <-> count (split_newline code) + 1 < line).
Proof.
  rewrite getAbsolutePosition_spec. split; [reflexivity|]. split.
  - intros Hline.
    destruct (Z.leb_spec (line - 1) (count (split_newline code)));
      [|unfold count in *; lia].
    replace (Z.to_nat (line - 1)) with 0%nat by lia. reflexivity.
  - destruct (Z.leb_spec (line - 1) (count (split_newline code))).
    + split; [discriminate|lia].
    + split; [lia|reflexivity].
Qed.

Lemma getAbsolutePosition_throws_witness :
  0 <= 1
  /\ getAbsolutePosition (js "ab") 0 5 = Normal (5 - 1)
  /\ getAbsolutePosition (js "ab") 3 1
     = Throw (TypeError undefinedLengthMessage).
Proof.
  split; [lia|].
  destruct (getAbsolutePosition_throws (js "ab") 0 5) as (_ & H0 & _).
  destruct (getAbsolutePosition_throws (js "ab") 3 1) as (_ & _ & H3).
  split; [apply H0; lia|apply H3; vm_compute; reflexivity].
Defined.

Lemma reachableCache_possible (contextCache : gmap string LexicalContext) :
  reachableCache contextCache ->
  forall key context,
    contextCache !! key = Some context -> In context possibleContexts.
Proof.
  induction 1 as [|cache code line column context cache' _ IH Hcall];
    intros key ctx Hkey.
  - rewrite lookup_empty in Hkey. discriminate.
  - unfold analyzePosition in Hcall.
    destruct (getAbsolutePosition code line column) as [absolutePos|];
      [|discriminate].
    destruct (cache !! cacheKey code absolutePos) as [hit|] eqn:Hhit.
    + injection Hcall as _ <-. eauto.
    + injection Hcall as _ <-.
      rewrite lookup_insert in Hkey. case_decide.
      * injection Hkey as <-. apply analyzeAbsolutePosition_possible.
      * eauto.
Qed.

(** X9.  On an analyzer whose cache was filled by its own calls,
    [findSafeFixZone] returns one of six verdicts, none of which names
    an undefined quote or comment kind, and it reports a position as
    safe exactly in plain code and inside a template substitution. *)
Theorem findSafeFixZone_verdicts
  (contextCache : gmap string LexicalContext) (code : jsString)
  (line column : Z) (zone : SafeZone.t)
  (cache' : gmap string LexicalContext) :
  reachableCache contextCache ->
  findSafeFixZone contextCache code line column = Normal (zone, cache') ->
  In (SafeZone.context zone) possibleContexts
  /\ In (SafeZone.isSafe zone, SafeZone.reason zone) possibleVerdicts
  /\ (SafeZone.isSafe zone = true <->
      SafeZone.context zone = defaultContext
      \/ SafeZone.context zone
         = mkContext false false false true true (Some "`"%char) None).
Proof.
  intros Hreach Hzone. unfold findSafeFixZone in Hzone.
  destruct (analyzePosition contextCache code line column)
    as [[context cache'']|] eqn:Hcall; [|discriminate].
  injection Hzone as <- <-.
  assert (In context possibleContexts) as Hin.
  { pose proof (reachable_analyzePosition _ _ _ _ _ _ Hreach Hcall) as Hr.
    unfold analyzePosition in Hcall.
    destruct (getAbsolutePosition code line column) as [absolutePos|];
      [|discriminate].
    destruct (contextCache !! cacheKey code absolutePos) as [hit|] eqn:Hhit.
    - injection Hcall as <- _.
      exact (reachableCache_possible _ Hreach _ _ Hhit).
    - injection Hcall as <- _. apply analyzeAbsolutePosition_possible. }
  cbn in Hin.
  repeat (destruct Hin as [<-|Hin];
          [split; [cbn; repeat (first [left; reflexivity|right])|];
           split; [cbn; repeat (first [left; reflexivity|right])|];
           cbn; split;
           [intros H; first [discriminate H|left; reflexivity
                            |right; reflexivity]
           |intros [H|H]; first [discriminate H|reflexivity]]|]).
  contradiction.
Qed.

(** X1.  An offset of the buffer, turned into a line and a column as
    [findEndOfFunction], [findEndOfVariableDeclaration] and
    [findPatternOccurrences] do, is a valid position for
    [FixerBase.isValidPosition], and [getAbsolutePosition] maps it back
    to the offset. *)
Theorem position_round_trip (code : jsString) (i : Z) :
  0 <= i <= len code ->
  getAbsolutePosition code (fst (lineColumnAt code i))
    (snd (lineColumnAt code i)) = Normal i
  /\ isValidPosition code (fst (lineColumnAt code i))
       (snd (lineColumnAt code i)) = true.
Proof. apply lineColumnAt_getAbsolutePosition. Qed.

Lemma position_round_trip_witness :
  0 <= 4 <= len (js "ab
cd")
  /\ lineColumnAt (js "ab
cd") 4 = (2, 2)
  /\ getAbsolutePosition (js "ab
cd") 2 2 = Normal 4.
Proof.
  assert (0 <= 4 <= len (js "ab
cd")) as H by (vm_compute; split; discriminate).
  split; [exact H|]. split; [reflexivity|].
  exact (proj1 (position_round_trip (js "ab
cd") 4 H)).
Defined.

Lemma valid_position_round_trip_witness :
  isValidPosition (js "ab
cd") 2 3 = true
  /\ exists p, getAbsolutePosition (js "ab
cd") 2 3 = Normal p
               /\ 0 <= p <= len (js "ab
cd")
               /\ lineColumnAt (js "ab
cd") p = (2, 3).
Proof.
  split; [reflexivity|].
  apply (valid_position_round_trip (js "ab
cd") 2 3). reflexivity.
Defined.

(** X4.  Whatever the buffer and the offset, the scan returns one of seven
    contexts: plain code, a string in single or in double quotes, a
    single-line or a multi-line comment, template text, a template
    substitution.  So at most one of [inString], [inComment] and
    [inTemplate] is set, [stringChar] and [commentType] are set exactly
    with them, and [inTemplateExpression] only with [inTemplate]. *)
Theorem scan_returns_possible_context (code : jsString) (position : Z) :
  In (analyzeAbsolutePosition code position) possibleContexts.
Proof. apply analyzeAbsolutePosition_possible. Qed.

Lemma scan_ignores_text_after_offset_witness :
  1 < len (js "'a")
  /\ analyzeAbsolutePosition (js "'a" ++ js "' + b") 1
     = analyzeAbsolutePosition (js "'a" ++ js "bc") 1.
Proof.
  assert (1 < len (js "'a")) as H by reflexivity.
  split; [exact H|].
  exact (scan_ignores_text_after_offset (js "'a") (js "' + b") (js "bc") 1 H).
Defined.

(** X6.  Two queries have the same cache key exactly when the buffers
    have the same length and the offsets are equal. *)
Theorem cacheKey_collision (code1 code2 : jsString) (p1 p2 : Z) :
  cacheKey code1 p1 = cacheKey code2 p2 <->
  len code1 = len code2 /\ p1 = p2.
Proof. apply cacheKey_inj. Qed.

Lemma cacheKey_collision_witness :
  (len (js "'a") = len (js "ab") /\ 1 = 1)
  /\ cacheKey (js "'a") 1 = cacheKey (js "ab") 1.
Proof.
  assert (len (js "'a") = len (js "ab") /\ 1 = 1) as H
    by (split; reflexivity).
  split; [exact H|].
  exact (proj2 (cacheKey_collision (js "'a") (js "ab") 1 1) H).
Defined.

Lemma analyzePosition_repeat_witness :
  analyzePosition ∅ (js "ab") 1 2
  = Normal (defaultContext, {[ "2-1"%string := defaultContext ]})
  /\ analyzePosition {[ "2-1"%string := defaultContext ]} (js "ab") 1 2
     = Normal (defaultContext, {[ "2-1"%string := defaultContext ]}).
Proof.
  assert (analyzePosition ∅ (js "ab") 1 2
          = Normal (defaultContext, {[ "2-1"%string := defaultContext ]}))
    as H by (vm_compute; reflexivity).
  split; [exact H|].
  exact (analyzePosition_repeat ∅ (js "ab") 1 2 defaultContext _ H).
Defined.

Lemma analyzePosition_coherent_witness :
  lengthDistinct (fun b => b = js "'a")
  /\ (forall b, b = js "'a" -> agreesWith ∅ b)
  /\ getAbsolutePosition (js "'a") 1 2 = Normal 1
  /\ exists cache',
      analyzePosition ∅ (js "'a") 1 2
      = Normal (analyzeAbsolutePosition (js "'a") 1, cache')
      /\ (forall b, b = js "'a" -> agreesWith cache' b).
Proof.
  assert (lengthDistinct (fun b => b = js "'a")) as H1
    by (intros a b -> -> _; reflexivity).
  assert (forall b, b = js "'a" -> agreesWith ∅ b) as H2
    by (intros b _; apply agreesWith_empty).
  assert (getAbsolutePosition (js "'a") 1 2 = Normal 1) as H3
    by (vm_compute; reflexivity).
  repeat apply conj; try assumption.
  exact (analyzePosition_coherent (fun b => b = js "'a") ∅ (js "'a") 1 2 1
           H1 H2 eq_refl H3).
Defined.

Lemma findSafeFixZone_verdicts_witness :
  reachableCache ∅
  /\ findSafeFixZone ∅ (js "'a") 1 2
     = Normal (safeFixZoneOf (analyzeAbsolutePosition (js "'a") 1),
               {[ "2-1"%string := analyzeAbsolutePosition (js "'a") 1 ]})
  /\ In (false, "Position is inside a string literal (')"%string)
       possibleVerdicts.
Proof.
  assert (findSafeFixZone ∅ (js "'a") 1 2
          = Normal (safeFixZoneOf (analyzeAbsolutePosition (js "'a") 1),
                    {[ "2-1"%string :=
                         analyzeAbsolutePosition (js "'a") 1 ]})) as H
    by (vm_compute; reflexivity).
  split; [constructor|]. split; [exact H|].
  pose proof (findSafeFixZone_verdicts ∅ (js "'a") 1 2 _ _ reachable_new H)
    as (_ & Hv & _).
  left. reflexivity.
Defined.

Lemma snapshot_round_trip_witness :
  js "x" <> []
  /\ compareWithSnapshot (js "x") "s1"
       (createSnapshot (js "x") "s1" newCodeValidator)
     = Normal (Comparison.mk true 0 0 false).
Proof.
  assert (js "x" <> []) as H by discriminate.
  split; [exact H|].
  exact (snapshot_round_trip (js "x") "s1" newCodeValidator H).
Defined.

(** X13.  For a range of lines inside the buffer, the lines of the text
    that [extractLines] returns are the lines of the buffer from [line]
    to [endLine], both included. *)
Theorem extractLines_range (code : jsString) (line endLine : Z) :
  1 <= line <= endLine -> endLine <= count (split_newline code) ->
  split_newline (extractLines code line (Some endLine))
  = take (Z.to_nat (endLine - line + 1))
      (drop (Z.to_nat (line - 1)) (split_newline code)).
Proof. apply extractLines_lines. Qed.

Lemma extractLines_range_witness :
  1 <= 2 <= 3
  /\ 3 <= count (split_newline (js "a
b
c
d"))
  /\ split_newline (extractLines (js "a
b
c
d") 2 (Some 3)) = [js "b"; js "c"].
Proof.
  assert (1 <= 2 <= 3) as H1 by lia.
  assert (3 <= count (split_newline (js "a
b
c
d"))) as H2 by (vm_compute; discriminate).
  split; [exact H1|]. split; [exact H2|].
  exact (extractLines_range _ 2 3 H1 H2).
Defined.

Lemma FixerBase_safeReplace_inverse_witness :
  0 <= 1 <= 3 /\ 3 <= len (js "abcdef")
  /\ FixerBase.safeReplace (js "abcdef") 1 3 (js "XYZ") = Normal (js "aXYZdef")
  /\ exists newCode,
      FixerBase.safeReplace (js "abcdef") 1 3 (js "XYZ") = Normal newCode
      /\ len newCode = len (js "abcdef") - (3 - 1) + len (js "XYZ")
      /\ FixerBase.safeReplace newCode 1 (1 + len (js "XYZ"))
           (slice (js "abcdef") 1 3)
         = Normal (js "abcdef").
Proof.
  assert (0 <= 1 <= 3) as H1 by lia.
  assert (3 <= len (js "abcdef")) as H2 by (vm_compute; discriminate).
  split; [exact H1|]. split; [exact H2|]. split; [reflexivity|].
  exact (FixerBase_safeReplace_inverse (js "abcdef") 1 3 (js "XYZ") H1 H2).
Defined.

(** X17.  The bracket scan of [checkCommonSyntaxIssues] raises no issue
    exactly on the buffers whose brackets are matched: those built from
    characters that are no brackets, matching pairs around a matched
    text, and concatenation.  Brackets inside strings and comments
    count. *)
Theorem bracketIssues_balanced (code : jsString) :
  bracketIssues code = [] <-> balanced code.
Proof. apply bracketIssues_nil_iff. Qed.

Lemma bracketIssues_balanced_witness :
  bracketIssues (js "f(a[0])") = [] /\ balanced (js "f(a[0])").
Proof.
  assert (bracketIssues (js "f(a[0])") = []) as H by reflexivity.
  split; [exact H|].
  exact (proj1 (bracketIssues_balanced (js "f(a[0])")) H).
Defined.

Lemma validateSyntax_valid_witness :
  ((fun _ : jsString => @None JsError) (js "(a)") = None
   /\ balanced (js "(a)")
   /\ (fun _ : jsString => @None string) (js "(a)") = None)
  /\ ValidationResult.isValid
       (validateSyntax (fun _ => None) (fun _ => None) (js "(a)")) = true.
Proof.
  assert (balanced (js "(a)")) as Hb.
  { apply (balanced_pair (chr "(") (chr ")") (js "a") []); [reflexivity| |].
    - apply balanced_char; [reflexivity|reflexivity|constructor].
    - constructor. }
  split; [repeat split; [exact Hb]|].
  apply (validateSyntax_valid (fun _ => None) (fun _ => None) (js "(a)")).
  repeat split. exact Hb.
Defined.

Lemma findEndOfFunction_result_witness :
  0 <= 2
  /\ findEndOfFunction ∅ (js "f {a}") 2
     = Normal (4, snd (match findEndOfFunction ∅ (js "f {a}") 2 with
                       | Normal r => r
                       | Throw _ => (0, ∅)
                       end))
  /\ exists r cache',
      findEndOfFunction ∅ (js "f {a}") 2 = Normal (r, cache')
      /\ (r = -1 \/ (2 <= r < len (js "f {a}")
                      /\ (js "f {a}").[r] = Some (chr "}"))).
Proof.
  assert (0 <= 2) as H by lia.
  split; [exact H|]. split; [vm_compute; reflexivity|].
  exact (findEndOfFunction_result ∅ (js "f {a}") 2 H).
Defined.

(** On an analyzer whose cache agrees with the scans of the buffer (a
    fresh or cleared one, for instance), a position that the scan places
    inside a string or a template literal is not inside a comment for
    the gate: its verdict is that of the scan's context. *)
Lemma findSafeFixZone_coherent_no_comment_veto
  (contextCache : gmap string LexicalContext) (code : jsString)
  (line column absolutePos : Z) :
  agreesWith contextCache code ->
  getAbsolutePosition code line column = Normal absolutePos ->
  inString (analyzeAbsolutePosition code absolutePos) = true
  \/ inTemplate (analyzeAbsolutePosition code absolutePos) = true ->
  inComment (analyzeAbsolutePosition code absolutePos) = false
  /\ exists cache',
       findSafeFixZone contextCache code line column
       = Normal (safeFixZoneOf (analyzeAbsolutePosition code absolutePos),
                 cache').
Proof.
  intros Hagree Hpos Hin. split.
  - pose proof (analyzeAbsolutePosition_possible code absolutePos) as Hp.
    revert Hin. cbn in Hp.
    repeat (destruct Hp as [<-|Hp];
            [cbn; intros [?|?]; first [reflexivity|discriminate]|]).
    contradiction.
  - unfold findSafeFixZone, analyzePosition. rewrite Hpos.
    destruct (contextCache !! cacheKey code absolutePos) as [hit|] eqn:Hhit.
    + rewrite (Hagree _ _ Hhit). eauto.
    + eauto.
Qed.

Lemma registry_getFixer_isFixable_witness :
  let fixer := FixerRegistry.mkFixer "semi" FixerRegistry.simple "SemiFixer" in
  let this0 := fst (FixerRegistry.autoDiscoverFixers_call FixerRegistry.new) in
  let this :=
    FixerRegistry.mk {[ "semi"%string := fixer ]}
      (<[ "semi"%string :=
            FixerRegistry.mkInfo "semi" FixerRegistry.simple "SemiFixer"
              (FixerRegistry.boolean true) ]>
         (FixerRegistry.fixerInfo this0))
      false in
  FixerRegistry.register fixer this0 = Normal this
  /\ FixerRegistry.reachable this 1
  /\ FixerRegistry.getFixer "semi" this = Some fixer
  /\ FixerRegistry.toBoolean (FixerRegistry.isFixable "semi" this) = true.
Proof.
  intros fixer this0 this.
  assert (FixerRegistry.register fixer this0 = Normal this) as H
    by (vm_compute; reflexivity).
  assert (FixerRegistry.reachable this 1) as Hr
    by (eapply FixerRegistry.reachable_register;
        [exact (FixerRegistry.reachable_autoDiscoverFixers_call _ _
                  FixerRegistry.reachable_new)|exact H]).
  split; [exact H|]. split; [exact Hr|].
  destruct (registry_getFixer_isFixable this 1 "semi" Hr) as (Hiff & _ & _).
  assert (FixerRegistry.getFixer "semi" this = Some fixer) as Hg
    by (vm_compute; reflexivity).
  split; [exact Hg|]. apply Hiff. rewrite Hg. eauto.
Defined.

Lemma registry_first_registration_wins_witness :
  let first := FixerRegistry.mkFixer "semi" FixerRegistry.simple "A" in
  let second := FixerRegistry.mkFixer "semi" FixerRegistry.complex "B" in
  let this1 :=
    FixerRegistry.mk {[ "semi"%string := first ]}
      {[ "semi"%string :=
           FixerRegistry.mkInfo "semi" FixerRegistry.simple "A"
             (FixerRegistry.boolean true) ]}
      false in
  FixerRegistry.ruleId first = FixerRegistry.ruleId second
  /\ FixerRegistry.register first FixerRegistry.new = Normal this1
  /\ FixerRegistry.register second this1 = Normal this1.
Proof.
  intros first second this1.
  assert (FixerRegistry.register first FixerRegistry.new = Normal this1) as H
    by (vm_compute; reflexivity).
  split; [reflexivity|]. split; [exact H|].
  exact (registry_first_registration_wins first second FixerRegistry.new
           this1 eq_refl H).
Defined.
